(** * Verification of the Graph enumeration and explorer scripts

    Shallow embedding of [one_enum.py] (class [MicrosoftGraphEnumeratorV2])
    and [ms_file_explorer.py] (class [SharePointExplorerV8]).

    Conventions of the embedding:
    - a JSON object the scripts read with [.get(key)] is a record whose
      fields are [option]s ([None]: the key is absent);
    - the remote service is a record of functions from a URL to a
      [response]; a response either raises in the transport, or carries a
      status code and a body ([None]: [response.json()] raises);
    - a [while url:] loop takes a page budget, since a service may hand out
      cursors for ever;
    - every HTTP request and every row appended to a CSV file is logged as
      an [event], in program order;
    - appending a row to a file may raise: a [storage] says of every file
      and row whether the append goes through;
    - the worker threads of the enumerator run their jobs in the order a
      schedule picks, at most [max_workers] jobs at a time;
    - a float the enumerator computes is kept as the expression that
      computes it, and the int division that can raise is decided exactly. *)

From Stdlib Require Import ZArith Ascii.
From stdpp Require Import gmap strings list fin_maps.

Local Open Scope Z_scope.

(** ** Python string operations used by the scripts *)

Module Py.

(** [bool(s)] for a string. *)
Definition truthy (s : string) : bool :=
  match s with EmptyString => false | String _ _ => true end.

(** [bool(x)] for a value that is [None] or a string. *)
Definition truthy_opt (x : option string) : bool :=
  match x with None => false | Some s => truthy s end.

(** What an f-string prints for a value that is [None] or a string. *)
Definition fmt (x : option string) : string :=
  match x with None => "None" | Some s => s end.

(** [s.startswith(p)]. *)
Fixpoint startswith (p s : string) : bool :=
  match p, s with
  | EmptyString, _ => true
  | String a p', String b s' => if decide (a = b) then startswith p' s' else false
  | String _ _, EmptyString => false
  end.

(** [needle in s]. *)
Fixpoint contains (needle s : string) : bool :=
  startswith needle s ||
  match s with
  | EmptyString => false
  | String _ s' => contains needle s'
  end.

(** [s.rstrip(c)] for a one-character set [c]. *)
Fixpoint rstrip (c : ascii) (s : string) : string :=
  match s with
  | EmptyString => EmptyString
  | String a s' =>
      match rstrip c s' with
      | EmptyString => if decide (a = c) then EmptyString else String a EmptyString
      | r => String a r
      end
  end.

(** [s.split(sep)] for a non-empty [sep]: the leftmost occurrences of
    [sep], not overlapping.  [skip] counts the characters of a matched
    separator that are still to be dropped. *)
Fixpoint split_from (sep : string) (skip : nat) (s : string) : list string :=
  match s with
  | EmptyString => [EmptyString]
  | String a s' =>
      match skip with
      | S k => split_from sep k s'
      | O =>
          if startswith sep s
          then EmptyString :: split_from sep (Nat.pred (String.length sep)) s'
          else match split_from sep O s' with
               | p :: ps => String a p :: ps
               | [] => [String a EmptyString]
               end
      end
  end.

Definition split (sep s : string) : list string := split_from sep O s.

(** [sep.join(l)]. *)
Fixpoint join (sep : string) (l : list string) : string :=
  match l with
  | [] => EmptyString
  | [x] => x
  | x :: rest => x +:+ sep +:+ join sep rest
  end.

(** [l[-1]] and [l[-2]] of a list of strings long enough; [l[:-2]]. *)
Definition item_m1 (l : list string) : string := List.last l EmptyString.
Definition item_m2 (l : list string) : string := List.last (removelast l) EmptyString.
Definition upto_m2 (l : list string) : list string := removelast (removelast l).

(** [c in s] for one character. *)
Fixpoint has_char (c : ascii) (s : string) : bool :=
  match s with
  | EmptyString => false
  | String a s' => if decide (a = c) then true else has_char c s'
  end.

(** [c.isspace()] on the ASCII range. *)
Definition isspace (c : ascii) : bool :=
  let n := nat_of_ascii c in
  ((9 <=? n) && (n <=? 13) || (28 <=? n) && (n <=? 32))%nat.

Fixpoint lstrip_ws (s : string) : string :=
  match s with
  | EmptyString => EmptyString
  | String a s' => if isspace a then lstrip_ws s' else s
  end.

Fixpoint rstrip_ws (s : string) : string :=
  match s with
  | EmptyString => EmptyString
  | String a s' =>
      match rstrip_ws s' with
      | EmptyString => if isspace a then EmptyString else String a EmptyString
      | r => String a r
      end
  end.

(** [s.strip()]. *)
Definition strip (s : string) : string := rstrip_ws (lstrip_ws s).

Definition digit_of (c : ascii) : option nat :=
  let n := nat_of_ascii c in
  if ((48 <=? n) && (n <=? 57))%nat then Some (n - 48)%nat else None.

(** [s.isdigit()] on the ASCII range. *)
Fixpoint all_digits (s : string) : bool :=
  match s with
  | EmptyString => true
  | String a s' => bool_decide (is_Some (digit_of a)) && all_digits s'
  end.

Definition isdigit (s : string) : bool := truthy s && all_digits s.

(** [int(s)] for a string of decimal digits. *)
Fixpoint int_from (acc : nat) (s : string) : nat :=
  match s with
  | EmptyString => acc
  | String a s' => int_from (10 * acc + default 0%nat (digit_of a))%nat s'
  end.

Definition int (s : string) : nat := int_from 0 s.

(** The double-quote character as a string. *)
Definition dquote : string := String "034"%char EmptyString.

(** [s.lstrip(c)] and [s.strip(c)] for a one-character set [c]. *)
Fixpoint lstrip (c : ascii) (s : string) : string :=
  match s with
  | EmptyString => EmptyString
  | String a s' => if decide (a = c) then lstrip c s' else s
  end.

Definition strip_char (c : ascii) (s : string) : string := rstrip c (lstrip c s).

(** A float, kept as the expression the script evaluates: the quotient of
    two ints, or a float times an int. *)
Inductive float :=
| Quotient (a b : Z)
| Times (x : float) (n : Z).

(** A number in a row: an int, or [round(x, 2)] of a float. *)
Inductive number :=
| Int (n : Z)
| Round2 (x : float).

(** The least magnitude that does not round to a float: half way between
    the largest float, 2^1024 - 2^971, and 2^1024. *)
Definition float_limit : Z := 2 ^ 1024 - 2 ^ 970.

(** [a / b] on two ints; [None] when it raises: ZeroDivisionError, or
    OverflowError when the quotient is too large for a float. *)
Definition truediv (a b : Z) : option float :=
  if b =? 0 then None
  else if float_limit * Z.abs b <=? Z.abs a then None
  else Some (Quotient a b).

(** [a or b] for two values that are [None] or a string. *)
Definition or_else (a b : option string) : option string :=
  if truthy_opt a then a else b.

End Py.

(** ** The owner email encoded in a personal-site URL

    The pure prefix of [SharePointExplorerV8.get_drives_from_url]: from the
    [rstrip] to the assembly of [email].  [None] stands for the two early
    [return False]. *)

Definition personal_part (onedrive_url : string) : option string :=
  let onedrive_url := Py.rstrip "/"%char onedrive_url in
  if negb (Py.contains "/personal/" onedrive_url) then None
  else Some (Py.item_m1 (Py.split "/personal/" onedrive_url)).

Definition email_of_parts (parts : list string) : option string :=
  if (length parts <? 3)%nat then None
  else
    let tld := Py.item_m1 parts in
    let domain := Py.item_m2 parts in
    let name_parts := Py.upto_m2 parts in
    Some (Py.join "." name_parts +:+ "@" +:+ domain +:+ "." +:+ tld).

Definition email_of_url (onedrive_url : string) : option string :=
  match personal_part onedrive_url with
  | None => None
  | Some part => email_of_parts (Py.split "_" part)
  end.

(** ** The remote service and its data *)

(** The answer to one HTTP request. *)
Inductive response (A : Type) : Type :=
| Raises                                  (* the transport raised: timeout, connection error *)
| Status (code : Z) (json : option A).    (* [json = None]: [response.json()] raises *)
Arguments Raises {A}.
Arguments Status {A} code json.

(** A page of a collection: the keys ['value'] and ['@odata.nextLink']. *)
Record page (A : Type) : Type := Page {
  value : option (list A);
  nextLink : option string
}.
Arguments Page {A} value nextLink.
Arguments value {A} p.
Arguments nextLink {A} p.

Record token := Token {
  tk_access_token : option string;
  tk_expires_in : option Z
}.

Record user := User {
  u_id : option string;
  u_displayName : option string;
  u_userPrincipalName : option string
}.

Record site := Site {
  s_id : option string;
  s_displayName : option string;
  s_webUrl : option string
}.

Record quota := Quota {
  q_total : option Z;
  q_used : option Z
}.

(** A drive object; [d_type] is the key ['_type'] the enumerator adds. *)
Record drive := Drive {
  d_id : option string;
  d_name : option string;
  d_webUrl : option string;
  d_driveType : option string;
  d_quota : option quota;
  d_type : option string
}.

(** A drive item; [i_folder] says whether the key ['folder'] is present. *)
Record item := Item {
  i_id : option string;
  i_name : option string;
  i_folder : bool;
  i_size : option Z;
  i_createdDateTime : option string;
  i_lastModifiedDateTime : option string;
  i_webUrl : option string
}.

(** The service, one function per shape of answer the scripts decode. *)
Record Graph := {
  post_token : string -> response token;
  get_users : string -> response (page user);
  get_sites : string -> response (page site);
  get_drive : string -> response drive;
  get_drives : string -> response (page drive);
  get_children : string -> response (page item)
}.

(** ** Output rows and events *)

(** [archivo_row] without its wall-clock ['timestamp'] column. *)
Record FileRecord := {
  f_drive_id : option string;
  f_ruta : string;
  f_nombre : string;
  f_tipo : string;
  f_tamano_bytes : Z;
  f_creado : string;
  f_modificado : string;
  f_url : string;
  f_profundidad : Z
}.

(** [user_row] without its wall-clock ['timestamp'] column. *)
Record UserRecord := {
  ur_user_id : option string;
  ur_nombre : string;
  ur_email : string;
  ur_drive_id : option string;
  ur_drive_name : string;
  ur_drive_type : string;
  ur_drive_url : string;
  ur_quota_usado_gb : Py.number;
  ur_quota_total_gb : Py.number;
  ur_porcentaje_uso : Py.number
}.

(** [site_row] without its wall-clock ['timestamp'] column. *)
Record SiteRecord := {
  sr_tipo : string;
  sr_nombre : string;
  sr_email : string;
  sr_url : string;
  sr_drive_id : option string;
  sr_drive_name : string;
  sr_drive_type : string;
  sr_quota_usado_gb : Py.number;
  sr_quota_total_gb : Py.number;
  sr_porcentaje_uso : Py.number
}.

Inductive csv_line :=
| Header (columns : list string)
| UserRow (r : UserRecord)
| SiteRow (r : SiteRecord)
| FileRow (r : FileRecord).

Inductive event :=
| Create (file : string) (columns : list string) (* [open(file, 'w')] and the header row *)
| Post (u : string)                           (* the token request *)
| Get (u : string)                            (* a request outside the tree walk *)
| ListChildren (profundidad : Z) (u : string) (* a children-listing page request of the
                                                 walk invocation running at [profundidad] *)
| Append (file : string) (line : csv_line).   (* a row appended to a CSV file *)

(** The local files as the enumerator meets them: [io file line] says
    whether [open(file, 'a')] followed by [writerow(line)] goes through;
    when it does not, one of the two raises and nothing is written (a path
    that cannot be opened, a value that cannot be encoded).  The row is
    asked about as the model keeps it, without its timestamp. *)
Definition storage : Type := string -> csv_line -> bool.

Definition is_file_row (e : event) : option FileRecord :=
  match e with Append _ (FileRow r) => Some r | _ => None end.

(** The file rows of a trace, in the order written. *)
Definition rows_of (tr : list event) : list FileRecord := omap is_file_row tr.

(** The depths at which the children-listing requests of a trace were made. *)
Definition listing_depths (tr : list event) : list Z :=
  omap (fun e => match e with ListChildren d _ => Some d | _ => None end) tr.

(** ** Cursor pagination

    The loop the scripts repeat: [while url: get; if 200: extend, follow
    nextLink; else: break].  It returns the URLs requested and how the loop
    ended. *)

Inductive fetched (A : Type) : Type :=
| Exhausted (items : list A)    (* [url] became falsy *)
| Refused (items : list A)      (* a status other than 200: [break] *)
| Raised (items : list A)       (* the request or [.json()] raised *)
| Unfinished (items : list A).  (* page budget spent, the loop is still running *)
Arguments Exhausted {A} items.
Arguments Refused {A} items.
Arguments Raised {A} items.
Arguments Unfinished {A} items.

Definition collected {A} (f : fetched A) : list A :=
  match f with
  | Exhausted l | Refused l | Raised l | Unfinished l => l
  end.

Fixpoint page_loop {A} (get : string -> response (page A)) (budget : nat)
    (url : string) (items : list A) : list string * fetched A :=
  match budget with
  | O => ([], Unfinished items)
  | S budget' =>
      match get url with
      | Raises => ([url], Raised items)
      | Status code body =>
          if code =? 200 then
            match body with
            | None => ([url], Raised items)
            | Some data =>
                let items := items ++ default [] (value data) in
                match nextLink data with
                | Some next =>
                    if Py.truthy next
                    then let '(reqs, out) := page_loop get budget' next items in
                         (url :: reqs, out)
                    else ([url], Exhausted items)
                | None => ([url], Exhausted items)
                end
            end
          else ([url], Refused items)
      end
  end.

(** ** [one_enum.py]: [MicrosoftGraphEnumeratorV2] *)

Module Enum.

Record enumerator := {
  tenant_id : string;
  client_id : string;
  client_secret : string;
  max_workers : Z;
  max_depth : Z
}.

Record session := {
  access_token : option string;
  token_expires : option Z
}.

Definition graph := "https://graph.microsoft.com/v1.0".

Definition get_access_token (G : Graph) (self : enumerator) (st : session)
    : list event * (bool * session) :=
  let url := "https://login.microsoftonline.com/" +:+ tenant_id self +:+ "/oauth2/v2.0/token" in
  ([Post url],
   match post_token G url with
   | Raises => (false, st)
   | Status code body =>
       if code =? 200 then
         match body with
         | None => (false, st)
         | Some token_data =>
             match tk_access_token token_data with
             | None => (false, st)
             | Some tok =>
                 let st := {| access_token := Some tok; token_expires := token_expires st |} in
                 match tk_expires_in token_data with
                 | None => (false, st)
                 | Some e => (true, {| access_token := Some tok; token_expires := Some e |})
                 end
             end
         end
       else (false, st)
   end).

(** What a function that ends in [return items] after a pagination loop
    hands back; [None] while the loop is still running. *)
Definition returned {A} (f : fetched A) : option (list A) :=
  match f with
  | Exhausted l | Refused l | Raised l => Some l
  | Unfinished _ => None
  end.

Definition listar_todos_los_usuarios (G : Graph) (budget : nat)
    : list event * option (list user) :=
  let '(reqs, out) := page_loop (get_users G) budget (graph +:+ "/users?$top=200") [] in
  (Get <$> reqs, returned out).

Definition listar_todos_los_sites (G : Graph) (budget : nat)
    : list event * option (list site) :=
  let '(reqs, out) := page_loop (get_sites G) budget (graph +:+ "/sites?$top=200") [] in
  (Get <$> reqs, returned out).

Definition set_type (t : string) (d : drive) : drive :=
  Drive (d_id d) (d_name d) (d_webUrl d) (d_driveType d) (d_quota d) (Some t).

(** [drive.get('id') not in [d.get('id') for d in drives]] *)
Definition id_not_in (d : drive) (drives : list drive) : bool :=
  bool_decide (d_id d ∉ d_id <$> drives).

Definition add_shared (drives : list drive) (d : drive) : list drive :=
  if id_not_in d drives then drives ++ [set_type "shared" d] else drives.

Definition obtener_todos_los_drives_usuario (G : Graph) (user_id : option string)
    (user_email : string) : list event * list drive :=
  let url1 := graph +:+ "/users/" +:+ Py.fmt user_id +:+ "/drive" in
  let drives :=
    match get_drive G url1 with
    | Status code (Some d) => if code =? 200 then [set_type "personal" d] else []
    | _ => []
    end in
  let url2 := graph +:+ "/users/" +:+ Py.fmt user_id +:+ "/drives?$top=200" in
  let drives :=
    match get_drives G url2 with
    | Status code (Some data) =>
        if code =? 200 then foldl add_shared drives (default [] (value data)) else drives
    | _ => drives
    end in
  ([Get url1; Get url2], drives).

Definition children_url (drive_id item_id : option string) : string :=
  match item_id with
  | None => graph +:+ "/drives/" +:+ Py.fmt drive_id +:+ "/root/children?$top=200"
  | Some i => graph +:+ "/drives/" +:+ Py.fmt drive_id +:+ "/items/" +:+ i +:+ "/children?$top=200"
  end.

Definition archivo_row (drive_id : option string) (ruta : string) (profundidad : Z)
    (it : item) : FileRecord :=
  let nombre := default "N/A" (i_name it) in
  {| f_drive_id := drive_id;
     f_ruta := Py.rstrip "/"%char ruta +:+ "/" +:+ nombre;
     f_nombre := nombre;
     f_tipo := if i_folder it then "carpeta" else "archivo";
     f_tamano_bytes := default 0 (i_size it);
     f_creado := default "" (i_createdDateTime it);
     f_modificado := default "" (i_lastModifiedDateTime it);
     f_url := default "" (i_webUrl it);
     f_profundidad := profundidad |}.

(** [with csv_lock: with open(file, 'a', ...) as f: ... writer.writerow(row)]:
    the event of the append, or [None] when it raises. *)
Definition append (io : storage) (file : string) (line : csv_line) : option event :=
  if io file line then Some (Append file line) else None.

(** [if archivos_csv: ... writer.writerow(archivo_row)]: what has been
    written, or [None] when the append raises. *)
Definition guardar (io : storage) (archivos_csv : option string) (row : FileRecord)
    : option (list event) :=
  match archivos_csv with
  | Some file =>
      if Py.truthy file
      then match append io file (FileRow row) with
           | Some e => Some [e]
           | None => None
           end
      else Some []
  | None => Some []
  end.

(** The [for item in items] loop of the walk; [recurse] is the recursive
    call on a folder.  When the append of an item raises, the handler of the
    item passes: no row, no recursive call, and the loop goes on with the
    next item.  The flag is [false] when a nested call is still running (its
    budget is spent), and then nothing after it has happened. *)
Fixpoint procesar_items (recurse : option string -> string -> list event * bool)
    (io : storage) (self : enumerator) (drive_id : option string) (ruta : string)
    (profundidad : Z) (archivos_csv : option string) (items : list item)
    : list event * bool :=
  match items with
  | [] => ([], true)
  | it :: rest =>
      let row := archivo_row drive_id ruta profundidad it in
      match guardar io archivos_csv row with
      | None => procesar_items recurse io self drive_id ruta profundidad archivos_csv rest
      | Some saved =>
          let '(sub, ok) :=
            if i_folder it && (profundidad <? max_depth self)
            then recurse (i_id it) (f_ruta row)
            else ([], true) in
          if ok
          then let '(more, ok') :=
                 procesar_items recurse io self drive_id ruta profundidad archivos_csv rest in
               (saved ++ sub ++ more, ok')
          else (saved ++ sub, false)
      end
  end.

(** [listar_archivos_recursivo].  [stack] bounds the nesting of
    invocations that get past the depth guard, [budget] the pages of one
    listing.  The result is the events in order and whether the call has
    returned (it never raises: both handlers pass). *)
Fixpoint listar_archivos_recursivo (G : Graph) (io : storage) (self : enumerator)
    (budget stack : nat) (drive_id item_id : option string) (ruta : string)
    (profundidad : Z) (archivos_csv : option string) {struct stack} : list event * bool :=
  if profundidad >? max_depth self then ([], true)
  else
    match stack with
    | O => ([], false)
    | S stack' =>
        let '(reqs, out) :=
          page_loop (get_children G) budget (children_url drive_id item_id) [] in
        let listed := ListChildren profundidad <$> reqs in
        match out with
        | Unfinished _ => (listed, false)
        | Raised _ => (listed, true)
        | Exhausted items | Refused items =>
            let '(evs, ok) :=
              procesar_items
                (fun sub_id sub_ruta =>
                   listar_archivos_recursivo G io self budget stack' drive_id sub_id sub_ruta
                     (profundidad + 1) archivos_csv)
                io self drive_id ruta profundidad archivos_csv items in
            (listed ++ evs, ok)
        end
    end.

(** [quota_info.get('total', 0) or 0] and [quota_info.get('used', 0) or 0],
    with [quota_info = drive.get('quota', {}) or {}]. *)
Definition quota_total (d : drive) : Z :=
  default 0 (q_total (default (Quota None None) (d_quota d))).
Definition quota_used (d : drive) : Z :=
  default 0 (q_used (default (Quota None None) (d_quota d))).

(** [(quota_used / quota_total) * 100] when [quota_total > 0], else [0]. *)
Definition porcentaje (d : drive) : option Py.number :=
  if 0 <? quota_total d
  then match Py.truediv (quota_used d) (quota_total d) with
       | Some x => Some (Py.Round2 (Py.Times x 100))
       | None => None
       end
  else Some (Py.Int 0).

(** [round(bytes / 1024**3, 2) if bytes else 0] *)
Definition gigabytes (bytes : Z) : option Py.number :=
  if bytes =? 0 then Some (Py.Int 0)
  else match Py.truediv bytes (1024 ^ 3) with
       | Some x => Some (Py.Round2 x)
       | None => None
       end.

(** The three quota columns of a summary row: used, total, percentage;
    [None] when one of the divisions raises. *)
Definition quota_columns (d : drive) : option (Py.number * Py.number * Py.number) :=
  match porcentaje d, gigabytes (quota_used d), gigabytes (quota_total d) with
  | Some p, Some u, Some t => Some (u, t, p)
  | _, _, _ => None
  end.

(** The stack the walk needs from depth 0: [max_depth + 1] nested invocations. *)
Definition stack_for (self : enumerator) : nat := Z.to_nat (max_depth self + 1).

(** The [for drive in drives] loop of a job: the summary row of the drive,
    then the walk of the drive from its root.  [summary d] is the append of
    the row, [None] when building or appending the row raises; the handler
    of the drive then goes on with the next drive, and the drive is not
    walked. *)
Fixpoint procesar_drives (G : Graph) (io : storage) (self : enumerator) (budget : nat)
    (summary : drive -> option event) (archivos_csv : string) (drives : list drive)
    : list event * bool :=
  match drives with
  | [] => ([], true)
  | d :: rest =>
      match summary d with
      | None => procesar_drives G io self budget summary archivos_csv rest
      | Some row =>
          let '(walk, ok) :=
            listar_archivos_recursivo G io self budget (stack_for self) (d_id d) None "/" 0
              (Some archivos_csv) in
          if ok
          then let '(more, ok') :=
                 procesar_drives G io self budget summary archivos_csv rest in
               (row :: walk ++ more, ok')
          else (row :: walk, false)
      end
  end.

(** [user_row]; [None] when the quota arithmetic raises. *)
Definition user_row (usuario : user) (d : drive) : option UserRecord :=
  match quota_columns d with
  | Some (usado, total, pct) =>
      Some {| ur_user_id := u_id usuario;
              ur_nombre := default "N/A" (u_displayName usuario);
              ur_email := default "" (u_userPrincipalName usuario);
              ur_drive_id := d_id d;
              ur_drive_name := default "N/A" (d_name d);
              ur_drive_type := default "unknown" (d_type d);
              ur_drive_url := default "" (d_webUrl d);
              ur_quota_usado_gb := usado;
              ur_quota_total_gb := total;
              ur_porcentaje_uso := pct |}
  | None => None
  end.

(** The user row of a drive as far as it gets written. *)
Definition user_summary (io : storage) (usuario : user) (usuarios_csv : string) (d : drive)
    : option event :=
  match user_row usuario d with
  | Some r => append io usuarios_csv (UserRow r)
  | None => None
  end.

Definition procesar_usuario_paralelo (G : Graph) (io : storage) (self : enumerator)
    (budget : nat) (usuario : user) (usuarios_csv archivos_csv : string)
    : list event * bool :=
  let '(reqs, drives) :=
    obtener_todos_los_drives_usuario G (u_id usuario)
      (default "" (u_userPrincipalName usuario)) in
  let '(evs, ok) :=
    procesar_drives G io self budget (user_summary io usuario usuarios_csv) archivos_csv
      drives in
  (reqs ++ evs, ok).

(** [site_row]; [None] when the quota arithmetic raises. *)
Definition site_row (s : site) (d : drive) : option SiteRecord :=
  match quota_columns d with
  | Some (usado, total, pct) =>
      Some {| sr_tipo := "SITE";
              sr_nombre := default "N/A" (s_displayName s);
              sr_email := "";
              sr_url := default "" (s_webUrl s);
              sr_drive_id := d_id d;
              sr_drive_name := default "N/A" (d_name d);
              sr_drive_type := default "N/A" (d_driveType d);
              sr_quota_usado_gb := usado;
              sr_quota_total_gb := total;
              sr_porcentaje_uso := pct |}
  | None => None
  end.

(** The site row of a drive as far as it gets written. *)
Definition site_summary (io : storage) (s : site) (sites_csv : string) (d : drive)
    : option event :=
  match site_row s d with
  | Some r => append io sites_csv (SiteRow r)
  | None => None
  end.

Definition procesar_site_paralelo (G : Graph) (io : storage) (self : enumerator)
    (budget : nat) (s : site) (sites_csv archivos_csv : string) : list event * bool :=
  let '(reqs, out) :=
    page_loop (get_drives G) budget
      (graph +:+ "/sites/" +:+ Py.fmt (s_id s) +:+ "/drives?$top=200") [] in
  match out with
  | Unfinished _ => (Get <$> reqs, false)
  | Raised _ => (Get <$> reqs, true)
  | Exhausted drives | Refused drives =>
      let '(evs, ok) :=
        procesar_drives G io self budget (site_summary io s sites_csv) archivos_csv drives in
      ((Get <$> reqs) ++ evs, ok)
  end.

(** *** The worker pool

    [ThreadPoolExecutor(max_workers)]: the submitted jobs wait in a queue in
    submission order; at most [workers] of them are running at a time, each
    on a thread of its own; a thread that has finished its job takes the
    next one from the queue.  Rows are appended under [csv_lock], one at a
    time, so a run of the pool is one sequence of events: the events of the
    running jobs, interleaved as the threads get their turns. *)

(** A job on a worker thread: the events it has still to make, and whether
    it returns after them ([false]: its budget is spent, it runs for ever). *)
Definition job : Type := list event * bool.

Definition finished (j : job) : bool :=
  match j with
  | ([], true) => true
  | _ => false
  end.

(** Free threads take jobs from the head of the queue; a job with nothing
    to do is over at once. *)
Fixpoint take (workers : nat) (running queue : list job) : list job * list job :=
  match queue with
  | [] => (running, [])
  | j :: rest =>
      if (length running <? workers)%nat
      then if finished j then take workers running rest
           else take workers (running ++ [j]) rest
      else (running, queue)
  end.

(** One turn of a running job: its next event, and the jobs still running. *)
Definition turn (i : nat) (running : list job) : option (event * list job) :=
  match running !! i with
  | Some (e :: todo, ends) =>
      Some (e, if finished (todo, ends) then delete i running
               else <[i := (todo, ends)]> running)
  | _ => None
  end.

(** The run of the pool under a schedule: each number of the schedule
    gives the next turn to one of the running jobs (counted modulo their
    number).  The result is the events in order, and whether every job has
    returned; when the schedule ends before that, the pool is still running.
    A turn given to a job that runs for ever shows no event. *)
Fixpoint run_pool (workers : nat) (schedule : list nat) (running queue : list job)
    : list event * bool :=
  let '(running, queue) := take workers running queue in
  match running with
  | [] => ([], match queue with [] => true | _ => false end)
  | _ :: _ =>
      match schedule with
      | [] => ([], false)
      | k :: schedule' =>
          match turn (k mod length running) running with
          | Some (e, running') =>
              let '(evs, ok) := run_pool workers schedule' running' queue in
              (e :: evs, ok)
          | None => run_pool workers schedule' running queue
          end
      end
  end.

(** [with ThreadPoolExecutor(max_workers=...) as executor:] with one
    submitted job per element, until the block is left. *)
Definition pool {A} (workers : nat) (schedule : list nat) (run : A -> job) (jobs : list A)
    : list event * bool :=
  run_pool workers schedule [] (run <$> jobs).

Definition usuarios_headers : list string :=
  ["user_id"; "nombre"; "email"; "drive_id"; "drive_name"; "drive_type";
   "drive_url"; "quota_usado_gb"; "quota_total_gb"; "porcentaje_uso"; "timestamp"].
Definition sites_headers : list string :=
  ["tipo"; "nombre"; "email"; "url"; "drive_id"; "drive_name"; "drive_type";
   "quota_usado_gb"; "quota_total_gb"; "porcentaje_uso"; "timestamp"].
Definition archivos_headers : list string :=
  ["drive_id"; "ruta"; "nombre"; "tipo"; "tamaño_bytes"; "creado";
   "modificado"; "url"; "profundidad"; "timestamp"].

(** How far a method has got: it has returned, it is still running, or it
    has raised an exception that nothing handles. *)
Inductive ending :=
| Returned
| Running
| Uncaught.

(** [generar_reporte_completo]; [timestamp] is the formatted clock reading
    of its first statement, [schedule_u] and [schedule_s] are the schedules
    of the two pools.  [ThreadPoolExecutor] raises ValueError when
    [max_workers] is not positive, and the method has no handler for it.
    The result is the events in order and how far the method has got. *)
Definition generar_reporte_completo (G : Graph) (io : storage) (self : enumerator)
    (budget : nat) (schedule_u schedule_s : list nat) (timestamp : string)
    : list event * ending :=
  let usuarios_csv := "usuarios_" +:+ timestamp +:+ ".csv" in
  let sites_csv := "sites_" +:+ timestamp +:+ ".csv" in
  let archivos_csv := "archivos_" +:+ timestamp +:+ ".csv" in
  let created :=
    [Create usuarios_csv usuarios_headers;
     Create sites_csv sites_headers;
     Create archivos_csv archivos_headers] in
  let '(auth, (ok, st)) := get_access_token G self {| access_token := None; token_expires := None |} in
  if negb ok then (created ++ auth, Returned)
  else
    let '(ev_u, usuarios) := listar_todos_los_usuarios G budget in
    match usuarios with
    | None => (created ++ auth ++ ev_u, Running)
    | Some usuarios =>
        let '(ev_s, sites) := listar_todos_los_sites G budget in
        match sites with
        | None => (created ++ auth ++ ev_u ++ ev_s, Running)
        | Some sites =>
            if max_workers self <=? 0
            then (created ++ auth ++ ev_u ++ ev_s, Uncaught)
            else
              let workers := Z.to_nat (max_workers self) in
              let '(ev_ju, ok_u) :=
                pool workers schedule_u
                  (fun u => procesar_usuario_paralelo G io self budget u usuarios_csv
                              archivos_csv)
                  usuarios in
              if negb ok_u then (created ++ auth ++ ev_u ++ ev_s ++ ev_ju, Running)
              else
                let '(ev_js, ok_s) :=
                  pool workers schedule_s
                    (fun s => procesar_site_paralelo G io self budget s sites_csv archivos_csv)
                    sites in
                (created ++ auth ++ ev_u ++ ev_s ++ ev_ju ++ ev_js,
                 if ok_s then Returned else Running)
        end
    end.

(** The files on disk after a run of events. *)
Definition write_event (fs : gmap string (list csv_line)) (e : event)
    : gmap string (list csv_line) :=
  match e with
  | Create file columns => <[file := [Header columns]]> fs
  | Append file line => <[file := default [] (fs !! file) ++ [line]]> fs
  | _ => fs
  end.

Definition write_events (fs : gmap string (list csv_line)) (evs : list event)
    : gmap string (list csv_line) :=
  foldl write_event fs evs.

(** The script run as a program: the body under [__main__] builds the
    enumerator from the parsed arguments and calls
    [generar_reporte_completo].  The module has no [sys.exit]: a run that
    returns ends the process with status 0, and an exception that nothing
    handles ends it with status 1.  [None]: still running. *)
Record process := {
  files : gmap string (list csv_line);
  trace : list event;
  exit_status : option Z
}.

Definition main (G : Graph) (io : storage) (self : enumerator) (budget : nat)
    (schedule_u schedule_s : list nat) (timestamp : string)
    (disk : gmap string (list csv_line)) : process :=
  let '(evs, how) := generar_reporte_completo G io self budget schedule_u schedule_s timestamp in
  {| files := write_events disk evs;
     trace := evs;
     exit_status := match how with
                    | Returned => Some 0
                    | Uncaught => Some 1
                    | Running => None
                    end |}.

End Enum.

(** ** [ms_file_explorer.py]: [SharePointExplorerV8] *)

Module Explorer.

(** An element of [self.available_drives]. *)
Record entry := {
  e_id : option string;
  e_name : string;
  e_type : string;
  e_owner : string;
  e_quota : quota
}.

(** The attributes of the explorer the resolution reads and writes, and
    the requests made so far. *)
Record explorer := {
  drive_id : option string;
  available_drives : list entry;
  requests : list string
}.

(** What the operator does at the [input()] prompt. *)
Inductive keyboard :=
| Line (typed : string)
| KeyboardInterrupt
| EOFError.

(** A method either returns or raises an [Exception]. *)
Inductive outcome (A : Type) : Type :=
| Returns (a : A)
| Throws.
Arguments Returns {A} a.
Arguments Throws {A}.

Definition M (A : Type) : Type := explorer -> outcome A * explorer.

Definition ret {A} (a : A) : M A := fun s => (Returns a, s).
Definition throw {A} : M A := fun s => (Throws, s).
Definition bind {A B} (m : M A) (k : A -> M B) : M B :=
  fun s => match m s with
           | (Returns a, s') => k a s'
           | (Throws, s') => (Throws, s')
           end.
(** [try: m except Exception: handler] *)
Definition try_except {A} (m : M A) (handler : M A) : M A :=
  fun s => match m s with
           | (Returns a, s') => (Returns a, s')
           | (Throws, s') => handler s'
           end.

Notation "x <~ m ;; k" := (bind m (fun x => k))
  (at level 100, m at next level, right associativity).
Notation "m ;;; k" := (bind m (fun _ => k))
  (at level 100, right associativity).

Definition set_drive_id (i : option string) : M unit :=
  fun s => (Returns (), {| drive_id := i; available_drives := available_drives s;
                          requests := requests s |}).
Definition set_available_drives (l : list entry) : M unit :=
  fun s => (Returns (), {| drive_id := drive_id s; available_drives := l;
                          requests := requests s |}).
Definition get_available_drives : M (list entry) :=
  fun s => (Returns (available_drives s), s).

(** [requests.get(url, ...)]: the request is made, then it raises or
    gives a response. *)
Definition sent (s : explorer) (url : string) : explorer :=
  {| drive_id := drive_id s; available_drives := available_drives s;
     requests := requests s ++ [url] |}.

Definition http {A} (get : string -> response A) (url : string) : M (Z * option A) :=
  fun s =>
    match get url with
    | Raises => (Throws, sent s url)
    | Status code body => (Returns (code, body), sent s url)
    end.

(** [response.json()] *)
Definition json {A} (body : option A) : M A :=
  match body with Some data => ret data | None => throw end.

Definition graph := "https://graph.microsoft.com/v1.0".

Definition search_url (email : string) : string :=
  graph +:+ "/sites?$search=" +:+ Py.dquote +:+ email +:+ Py.dquote.

(** The [for site in sites] loop of [search_all_drives_by_email]. *)
Fixpoint search_sites (G : Graph) (sites : list site) (drives : list drive)
    : M (list drive) :=
  match sites with
  | [] => ret drives
  | s :: rest =>
      drives' <~ try_except
        (r <~ http (get_drives G) (graph +:+ "/sites/" +:+ Py.fmt (s_id s) +:+ "/drives") ;;
         if fst r =? 200
         then data <~ json (snd r) ;; ret (drives ++ default [] (value data))
         else ret drives)
        (ret drives) ;;
      search_sites G rest drives'
  end.

Definition search_all_drives_by_email (G : Graph) (email : string) : M (list drive) :=
  try_except
    (r <~ http (get_sites G) (search_url email) ;;
     if fst r =? 200
     then data <~ json (snd r) ;; search_sites G (default [] (value data)) []
     else ret [])
    (ret []).

(** [select_drive]: the menu is printed ([drive['id'][:40]] raises on an
    id that is [None]), then one line is read. *)
Definition select_drive (stdin : keyboard) : M bool :=
  drives <~ get_available_drives ;;
  if bool_decide (Forall (fun d => is_Some (e_id d)) drives)
  then
    match stdin with
    | KeyboardInterrupt => ret false
    | EOFError => throw
    | Line typed =>
        let choice := Py.strip typed in
        let choice := if Py.truthy choice then choice else "1" in
        if Py.isdigit choice && (1 <=? Py.int choice)%nat
           && (Py.int choice <=? length drives)%nat
        then
          match drives !! (Py.int choice - 1)%nat with
          | Some d => set_drive_id (e_id d) ;;; ret true
          | None => throw
          end
        else ret false
    end
  else throw.

Definition no_quota : quota := Quota None None.

Definition personal_entry (user_name : string) (d : drive) : entry :=
  {| e_id := d_id d;
     e_name := user_name +:+ " - OneDrive Personal";
     e_type := "personal";
     e_owner := user_name;
     e_quota := default no_quota (d_quota d) |}.

Definition shared_entry (user_name : string) (d : drive) : entry :=
  {| e_id := d_id d;
     e_name := default "Drive" (d_name d);
     e_type := "shared";
     e_owner := user_name;
     e_quota := default no_quota (d_quota d) |}.

Definition huerfano_entry (email : string) (d : drive) : entry :=
  {| e_id := d_id d;
     e_name := default "Drive" (d_name d);
     e_type := "huerfano";
     e_owner := email;
     e_quota := default no_quota (d_quota d) |}.

(** [not any(d['id'] == drive.get('id') for d in self.available_drives)] *)
Definition add_shared (user_name : string) (avail : list entry) (d : drive) : list entry :=
  if bool_decide (d_id d ∉ e_id <$> avail)
  then avail ++ [shared_entry user_name d]
  else avail.

(** The tail shared by both resolution paths: none, one, or a choice. *)
Definition choose (stdin : keyboard) (on_empty : M bool) : M bool :=
  drives <~ get_available_drives ;;
  match drives with
  | [] => on_empty
  | [d] => set_drive_id (e_id d) ;;; ret true
  | _ => select_drive stdin
  end.

Definition get_user_drives (G : Graph) (stdin : keyboard) (user_id user_name : string)
    : M bool :=
  set_available_drives [] ;;;
  try_except
    (r <~ http (get_drive G) (graph +:+ "/users/" +:+ user_id +:+ "/drive") ;;
     if fst r =? 200
     then d <~ json (snd r) ;;
          avail <~ get_available_drives ;;
          set_available_drives (avail ++ [personal_entry user_name d])
     else ret ())
    (ret ()) ;;;
  try_except
    (r <~ http (get_drives G) (graph +:+ "/users/" +:+ user_id +:+ "/drives") ;;
     if fst r =? 200
     then data <~ json (snd r) ;;
          avail <~ get_available_drives ;;
          set_available_drives (foldl (add_shared user_name) avail (default [] (value data)))
     else ret ())
    (ret ()) ;;;
  choose stdin (ret false).

Definition users_url (email : string) : string :=
  graph +:+ "/users?$filter=mail eq '" +:+ email +:+ "' or userPrincipalName eq '"
    +:+ email +:+ "'".

(** METHOD 1 of [get_drives_from_url]: [Some b] when it executes
    [return self.get_user_drives(...)], [None] when control falls through
    to METHOD 2. *)
Definition busqueda_normal (G : Graph) (stdin : keyboard) (email : string)
    : M (option bool) :=
  r <~ http (get_users G) (users_url email) ;;
  if fst r =? 200
  then
    data <~ json (snd r) ;;
    match default [] (value data) with
    | u :: _ =>
        match u_id u with
        | None => throw
        | Some user_id =>
            b <~ get_user_drives G stdin user_id (default email (u_displayName u)) ;;
            ret (Some b)
        end
    | [] => ret None
    end
  else ret None.

(** METHOD 2 of [get_drives_from_url]. *)
Definition busqueda_global (G : Graph) (stdin : keyboard) (email : string) : M bool :=
  drives <~ search_all_drives_by_email G email ;;
  match drives with
  | [] => ret false
  | _ =>
      set_available_drives (huerfano_entry email <$> drives) ;;;
      choose stdin (select_drive stdin)
  end.

Definition get_drives_from_url (G : Graph) (stdin : keyboard) (onedrive_url : string)
    : M bool :=
  try_except
    (match email_of_url onedrive_url with
     | None => ret false
     | Some email =>
         found <~ busqueda_normal G stdin email ;;
         match found with
         | Some b => ret b
         | None => busqueda_global G stdin email
         end
     end)
    (ret false).

(** [list_files]: the events and what is returned ([None]: the loop is
    still running). *)
Definition children_url (drive_id : string) (item_id : option string) : string :=
  match item_id with
  | None => graph +:+ "/drives/" +:+ drive_id +:+ "/root/children" +:+ "?$top=200"
  | Some i => graph +:+ "/drives/" +:+ drive_id +:+ "/items/" +:+ i +:+ "/children"
                +:+ "?$top=200"
  end.

Definition list_files (G : Graph) (budget : nat) (drive_id : option string)
    (item_id : option string) : list event * option (list item) :=
  match drive_id with
  | None => ([], Some [])
  | Some d =>
      if Py.truthy d then
        let '(reqs, out) := page_loop (get_children G) budget (children_url d item_id) [] in
        (Get <$> reqs,
         match out with
         | Exhausted items | Refused items => Some items
         | Raised _ => Some []
         | Unfinished _ => None
         end)
      else ([], Some [])
  end.

Definition fresh : explorer :=
  {| drive_id := None; available_drives := []; requests := [] |}.

(** [get_item_by_name]; [lower] stands for [str.lower]. *)
Fixpoint get_item_by_name (lower : string -> string) (name : string) (items : list item)
    : option item :=
  match items with
  | [] => None
  | it :: rest =>
      if bool_decide (lower (default "" (i_name it)) = lower name) then Some it
      else get_item_by_name lower name rest
  end.

(** Where the browser stands: [self.current_item_id] and [self.current_path]. *)
Record location := {
  current_item_id : option string;
  current_path : string
}.

Definition root : location := {| current_item_id := None; current_path := "/" |}.

(** The path [cd ..] moves to. *)
Definition parent_path (path : string) : string :=
  let parts := Py.split "/" (Py.rstrip "/"%char path) in
  if (1 <? length parts)%nat
  then let joined := Py.join "/" (removelast parts) in
       if Py.truthy joined then joined else "/"
  else "/".

(** [cmd_cd]: the requests made and the location afterwards ([None]: the
    listing is still running). *)
Definition cmd_cd (lower : string -> string) (G : Graph) (budget : nat)
    (drive_id : option string) (target : string) (loc : location)
    : list event * option location :=
  if negb (Py.truthy_opt drive_id) then ([], Some loc)
  else if bool_decide (target = "..") then
    ([], Some (if bool_decide (current_path loc = "/") then loc
               else {| current_item_id := None;
                       current_path := parent_path (current_path loc) |}))
  else if bool_decide (target = "/") then ([], Some root)
  else
    let '(evs, listed) := list_files G budget drive_id (current_item_id loc) in
    match listed with
    | None => (evs, None)
    | Some items =>
        match get_item_by_name lower target items with
        | None => (evs, Some loc)
        | Some it =>
            if i_folder it
            then (evs, Some {| current_item_id := i_id it;
                               current_path :=
                                 Py.rstrip "/"%char (current_path loc) +:+ "/" +:+ target |})
            else (evs, Some loc)
        end
    end.

Definition token_url (tenant_id : string) : string :=
  "https://login.microsoftonline.com/" +:+ tenant_id +:+ "/oauth2/v2.0/token".

(** [authenticate]: the result and the token stored. *)
Definition authenticate (G : Graph) (tenant_id : string) : bool * option string :=
  match post_token G (token_url tenant_id) with
  | Raises => (false, None)
  | Status code body =>
      if code =? 200 then
        match body with
        | Some token_data =>
            match tk_access_token token_data with
            | Some tok => (true, Some tok)
            | None => (false, None)
            end
        | None => (false, None)
        end
      else (false, None)
  end.

(** How far the script gets: the process exits with a status, or the
    explorer stands at the prompt of [run]. *)
Inductive launched :=
| Exits (status : Z) (s : explorer)
| Prompt (s : explorer).

(** The argument stripped of white space, then of double quotes, then of
    single quotes, as [__init__] does before looking at it. *)
Definition clean_input (drive_id_or_url : string) : string :=
  Py.strip_char "039"%char (Py.strip_char "034"%char (Py.strip drive_id_or_url)).

(** [__init__] followed by [run] up to its prompt.  The token request is
    logged with the other requests. *)
Definition start (G : Graph) (stdin : keyboard) (tenant_id : string)
    (drive_id_or_url : option string) : launched :=
  let s0 := sent fresh (token_url tenant_id) in
  if negb (fst (authenticate G tenant_id)) then Exits 1 s0
  else
    let built :=
      match drive_id_or_url with
      | None => Prompt s0
      | Some input =>
          if Py.truthy input then
            let drive_id_clean := clean_input input in
            if Py.startswith "b!" drive_id_clean
            then Prompt {| drive_id := Some drive_id_clean;
                           available_drives := available_drives s0;
                           requests := requests s0 |}
            else match get_drives_from_url G stdin drive_id_clean s0 with
                 | (Returns true, s) => Prompt s
                 | (_, s) => Exits 1 s
                 end
          else Prompt s0
      end in
    match built with
    | Exits status s => Exits status s
    | Prompt s => if Py.truthy_opt (drive_id s) then Prompt s else Exits 0 s
    end.

(** The body under [__main__]: [args.drive_id or args.url], then the
    explorer. *)
Definition main (G : Graph) (stdin : keyboard) (tenant_id : string)
    (arg_drive_id arg_url : option string) : launched :=
  let drive_input := Py.or_else arg_drive_id arg_url in
  if negb (Py.truthy_opt drive_input) then Exits 1 fresh
  else start G stdin tenant_id drive_input.

End Explorer.

(** ** Sample services *)

Module Samples.

Definition silent : Graph :=
  {| post_token := fun _ => Raises;
     get_users := fun _ => Raises;
     get_sites := fun _ => Raises;
     get_drive := fun _ => Raises;
     get_drives := fun _ => Raises;
     get_children := fun _ => Raises |}.

Definition ana : user := User (Some "u1") (Some "Ana") (Some "ana@contoso.com").
Definition luis : user := User (Some "u2") (Some "Luis") (Some "luis@contoso.com").
Definition eva : user := User (Some "u3") None None.

Definition users_first := "https://graph.microsoft.com/v1.0/users?$top=200".

(** Three users in two pages. *)
Definition two_pages : Graph :=
  {| post_token := fun _ => Raises;
     get_users := fun u =>
       if bool_decide (u = users_first)
       then Status 200 (Some (Page (Some [ana; luis]) (Some "https://next/2")))
       else if bool_decide (u = "https://next/2")
       then Status 200 (Some (Page (Some [eva]) None))
       else Status 404 None;
     get_sites := fun _ => Raises;
     get_drive := fun _ => Raises;
     get_drives := fun _ => Raises;
     get_children := fun _ => Raises |}.

(** The second page of users is answered with status 503. *)
Definition second_page_503 : Graph :=
  {| post_token := fun _ => Raises;
     get_users := fun u =>
       if bool_decide (u = users_first)
       then Status 200 (Some (Page (Some [ana; luis]) (Some "https://next/2")))
       else Status 503 None;
     get_sites := fun _ => Raises;
     get_drive := fun _ => Raises;
     get_drives := fun _ => Raises;
     get_children := fun _ => Raises |}.

Definition informe : item :=
  Item (Some "i1") (Some "informe.docx") false (Some 2048) None None None.
Definition fotos : item :=
  Item (Some "i2") (Some "Fotos") true None None None None.
Definition playa : item :=
  Item (Some "i3") (Some "playa.jpg") false (Some 4096) None None None.
Definition viajes : item :=
  Item (Some "i4") (Some "Viajes") true None None None None.

Definition root_of_bx := "https://graph.microsoft.com/v1.0/drives/b!x/root/children?$top=200".
Definition children_of (i : string) :=
  "https://graph.microsoft.com/v1.0/drives/b!x/items/" +:+ i +:+ "/children?$top=200".

(** The root listing of drive [b!x] has a first page, and the request for
    its second page times out. *)
Definition second_page_timeout : Graph :=
  {| post_token := fun _ => Raises;
     get_users := fun _ => Raises;
     get_sites := fun _ => Raises;
     get_drive := fun _ => Raises;
     get_drives := fun _ => Raises;
     get_children := fun u =>
       if bool_decide (u = root_of_bx)
       then Status 200 (Some (Page (Some [informe]) (Some "https://next/2")))
       else Raises |}.

(** Drive [b!x]: /informe.docx, /Fotos, /Fotos/playa.jpg, /Fotos/Viajes and
    an empty /Fotos/Viajes. *)
Definition small_tree : Graph :=
  {| post_token := fun _ => Status 200 (Some (Token (Some "tok") (Some 3600)));
     get_users := fun _ => Raises;
     get_sites := fun _ => Raises;
     get_drive := fun _ => Raises;
     get_drives := fun _ => Raises;
     get_children := fun u =>
       if bool_decide (u = root_of_bx)
       then Status 200 (Some (Page (Some [informe; fotos]) None))
       else if bool_decide (u = children_of "i2")
       then Status 200 (Some (Page (Some [playa; viajes]) None))
       else Status 200 (Some (Page (Some []) None)) |}.

Definition drive_a : drive :=
  Drive (Some "dA") (Some "OneDrive") None (Some "business") None None.
Definition drive_b : drive :=
  Drive (Some "dB") (Some "Equipo") None (Some "documentLibrary") None None.

(** Every principal has the default drive [dA]; the full list repeats it
    and holds [dB] twice. *)
Definition overlapping : Graph :=
  {| post_token := fun _ => Raises;
     get_users := fun _ => Raises;
     get_sites := fun _ => Raises;
     get_drive := fun _ => Status 200 (Some drive_a);
     get_drives := fun _ =>
       Status 200 (Some (Page (Some [drive_a; drive_b; drive_b]) None));
     get_children := fun _ => Raises |}.

Definition url_of_ana := "https://contoso-my.sharepoint.com/personal/ana_contoso_com".

(** The identity [ana@contoso.com] exists and no drive of it can be
    read; the tenant-wide search would find a site with drive [dB]. *)
Definition found_without_drives : Graph :=
  {| post_token := fun _ => Raises;
     get_users := fun _ => Status 200 (Some (Page (Some [ana]) None));
     get_sites := fun _ => Status 200 (Some (Page (Some [Site (Some "s1") None None]) None));
     get_drive := fun _ => Status 404 None;
     get_drives := fun u =>
       if bool_decide (u = "https://graph.microsoft.com/v1.0/sites/s1/drives")
       then Status 200 (Some (Page (Some [drive_b]) None))
       else Status 404 None;
     get_children := fun _ => Raises |}.

(** The identity lookup finds nobody; the tenant-wide search finds the
    sites [s1] (drives [dA] and [dB]) and [s2] (not readable). *)
Definition deleted_user : Graph :=
  {| post_token := fun _ => Raises;
     get_users := fun _ => Status 200 (Some (Page (Some []) None));
     get_sites := fun _ =>
       Status 200 (Some (Page (Some [Site (Some "s1") None None;
                                     Site (Some "s2") None None]) None));
     get_drive := fun _ => Raises;
     get_drives := fun u =>
       if bool_decide (u = "https://graph.microsoft.com/v1.0/sites/s1/drives")
       then Status 200 (Some (Page (Some [drive_a; drive_b]) None))
       else Raises;
     get_children := fun _ => Raises |}.

Definition depth (d : Z) : Enum.enumerator :=
  {| Enum.tenant_id := "t"; Enum.client_id := "c"; Enum.client_secret := "s";
     Enum.max_workers := 20; Enum.max_depth := d |}.

Definition sitio : site := Site (Some "s1") (Some "Ventas") None.

(** A tenant with one user and one site; every principal has the default
    drive [dA] and the drives [dA], [dB]; every root holds [informe] and the
    folder [fotos], every other folder is empty. *)
Definition tenant : Graph :=
  {| post_token := fun _ => Status 200 (Some (Token (Some "tok") (Some 3600)));
     get_users := fun _ => Status 200 (Some (Page (Some [ana]) None));
     get_sites := fun _ => Status 200 (Some (Page (Some [sitio]) None));
     get_drive := fun _ => Status 200 (Some drive_a);
     get_drives := fun _ => Status 200 (Some (Page (Some [drive_a; drive_b]) None));
     get_children := fun u =>
       if Py.contains "/root/children" u
       then Status 200 (Some (Page (Some [informe; fotos]) None))
       else Status 200 (Some (Page (Some []) None)) |}.


(** The enumerator started with [--workers w --depth d]. *)
Definition workers (w d : Z) : Enum.enumerator :=
  {| Enum.tenant_id := "t"; Enum.client_id := "c"; Enum.client_secret := "s";
     Enum.max_workers := w; Enum.max_depth := d |}.

(** Every append goes through. *)
Definition writable : storage := fun _ _ => true.

(** The row of an item called [Fotos] cannot be appended; every other
    append goes through. *)
Definition fotos_unwritable : storage :=
  fun _ line =>
    match line with
    | FileRow r => negb (bool_decide (f_nombre r = "Fotos"))
    | _ => true
    end.

(** The root listing of drive [b!x] has a first page, and the request for
    its second page is answered with status 503. *)
Definition listing_cut_short : Graph :=
  {| post_token := fun _ => Raises;
     get_users := fun _ => Raises;
     get_sites := fun _ => Raises;
     get_drive := fun _ => Raises;
     get_drives := fun _ => Raises;
     get_children := fun u =>
       if bool_decide (u = root_of_bx)
       then Status 200 (Some (Page (Some [informe]) (Some "https://next/2")))
       else Status 503 None |}.

(** A drive whose quota reports more bytes used than a float can hold. *)
Definition drive_huge : drive :=
  Drive (Some "dH") (Some "Archivo") None (Some "business")
    (Some (Quota (Some 1024) (Some (2 ^ 1100)))) None.


(** A tenant with the users [ana] and [luis] and no site; each user has the
    default drive [dA] only, whose root is empty. *)
Definition two_users : Graph :=
  {| post_token := fun _ => Status 200 (Some (Token (Some "tok") (Some 3600)));
     get_users := fun _ => Status 200 (Some (Page (Some [ana; luis]) None));
     get_sites := fun _ => Status 200 (Some (Page (Some []) None));
     get_drive := fun _ => Status 200 (Some drive_a);
     get_drives := fun _ => Status 404 None;
     get_children := fun _ => Status 200 (Some (Page (Some []) None)) |}.

(** Lower case on the letters A to Z, for the checks on concrete names. *)
Definition lower_ascii (s : string) : string :=
  (fix go (s : string) : string :=
     match s with
     | EmptyString => EmptyString
     | String a s' =>
         let n := nat_of_ascii a in
         String (if ((65 <=? n) && (n <=? 90))%nat then ascii_of_nat (n + 32) else a) (go s')
     end) s.

(** The root of drive [b!x] holds [informe] and the folder [fotos]. *)
Definition browsing : Graph :=
  {| post_token := fun _ => Status 200 (Some (Token (Some "tok") None));
     get_users := fun _ => Raises;
     get_sites := fun _ => Raises;
     get_drive := fun _ => Raises;
     get_drives := fun _ => Raises;
     get_children := fun u =>
       if bool_decide (u = root_of_bx)
       then Status 200 (Some (Page (Some [informe; fotos]) None))
       else Status 200 (Some (Page (Some [playa]) None)) |}.


(** Sites in two pages. *)
Definition sites_two_pages : Graph :=
  {| post_token := fun _ => Raises;
     get_users := fun _ => Raises;
     get_sites := fun u =>
       if bool_decide (u = "https://graph.microsoft.com/v1.0/sites?$top=200")
       then Status 200 (Some (Page (Some [sitio]) (Some "https://next/2")))
       else if bool_decide (u = "https://next/2")
       then Status 200 (Some (Page (Some [Site (Some "s2") None None]) None))
       else Status 500 None;
     get_drive := fun _ => Raises;
     get_drives := fun _ => Raises;
     get_children := fun _ => Raises |}.

End Samples.

(** * Specifications *)

(** ** Collections served in pages *)

(** A request that is answered with a status other than 200. *)
Definition refuses {A} (r : response A) : Prop :=
  exists code body, r = Status code body /\ code <> 200.

(** A request that raises, in the transport or in [response.json()]. *)
Definition raises {A} (r : response A) : Prop :=
  r = Raises \/ r = Status 200 None.

Section PagesSpec.
Context {A : Type} (get : string -> response (page A)).

(** [serves url pages]: starting at [url] the service answers every
    request with status 200; the answers hold the batches [pages] in
    order; every page but the last carries a cursor (a non-empty URL), the
    last carries none. *)
Inductive serves : string -> list (list A) -> Prop :=
| serves_last url batch next :
    get url = Status 200 (Some (Page batch next)) ->
    Py.truthy_opt next = false ->
    serves url [default [] batch]
| serves_more url batch next rest :
    get url = Status 200 (Some (Page batch (Some next))) ->
    Py.truthy next = true ->
    serves next rest ->
    serves url (default [] batch :: rest).

(** [stops_after bad url pages]: starting at [url] the service answers
    [length pages] requests with status 200, a batch and a cursor, and the
    next request is [bad]. *)
Inductive stops_after (bad : response (page A) -> Prop) : string -> list (list A) -> Prop :=
| stops_here url :
    bad (get url) ->
    stops_after bad url []
| stops_later url batch next rest :
    get url = Status 200 (Some (Page batch (Some next))) ->
    Py.truthy next = true ->
    stops_after bad next rest ->
    stops_after bad url (default [] batch :: rest).

End PagesSpec.


(** ** The tree walk *)

(** An event of the walk that lies between two depths; the walk produces
    listing requests and file rows only. *)
Definition within (lo hi : Z) (e : event) : Prop :=
  match e with
  | ListChildren d _ => lo <= d <= hi
  | Append _ (FileRow r) => lo <= f_profundidad r <= hi
  | _ => False
  end.

(** A pagination loop that has ended, one way or another. *)
Definition ended {A} (f : fetched A) : Prop :=
  match f with
  | Unfinished _ => False
  | _ => True
  end.

(** Every listing of the service ends within [budget] pages. *)
Definition listings_end (G : Graph) (budget : nat) : Prop :=
  forall url, ended (snd (page_loop (get_children G) budget url [])).

(** Every listing of the service is finite: it ends within some number of
    pages, which may differ from one node to the next. *)
Definition finite_listings (G : Graph) : Prop :=
  forall url, exists n, ended (snd (page_loop (get_children G) n url [])).

(** The nesting of invocations a walk started at [profundidad] may need. *)
Definition stack_bound (self : Enum.enumerator) (profundidad : Z) : nat :=
  Z.to_nat (Z.max 0 (Enum.max_depth self - profundidad + 1)).

Section Walk.
Context (G : Graph) (io : storage) (self : Enum.enumerator) (budget : nat)
        (drive_id : option string) (archivos_csv : option string).

(** Pre-order, as a grammar of traces.  [preorder d id ruta tr]: [tr] is
    the trace of visiting the node [id] whose path is [ruta] and whose
    children lie at depth [d]: first the page requests of its listing, then,
    unless one of them raised, its children in listing order.
    [children d ruta items tr]: for each child its own row, then the trace
    of its subtree when it is a folder above the depth limit, then the later
    siblings; a child whose row cannot be appended leaves no event at all,
    neither its row nor any of its subtree. *)
Inductive preorder : Z -> option string -> string -> list event -> Prop :=
| pre_beyond d id ruta :
    d > Enum.max_depth self ->
    preorder d id ruta []
| pre_aborted d id ruta reqs items :
    d <= Enum.max_depth self ->
    page_loop (get_children G) budget (Enum.children_url drive_id id) [] = (reqs, Raised items) ->
    preorder d id ruta (ListChildren d <$> reqs)
| pre_listed d id ruta reqs out tr :
    d <= Enum.max_depth self ->
    page_loop (get_children G) budget (Enum.children_url drive_id id) [] = (reqs, out) ->
    (exists items, out = Exhausted items \/ out = Refused items) ->
    children d ruta (collected out) tr ->
    preorder d id ruta ((ListChildren d <$> reqs) ++ tr)
with children : Z -> string -> list item -> list event -> Prop :=
| ch_none d ruta :
    children d ruta [] []
| ch_skipped d ruta it rest tr :
    Enum.guardar io archivos_csv (Enum.archivo_row drive_id ruta d it) = None ->
    children d ruta rest tr ->
    children d ruta (it :: rest) tr
| ch_leaf d ruta it rest saved tr :
    Enum.guardar io archivos_csv (Enum.archivo_row drive_id ruta d it) = Some saved ->
    i_folder it && (d <? Enum.max_depth self) = false ->
    children d ruta rest tr ->
    children d ruta (it :: rest) (saved ++ tr)
| ch_folder d ruta it rest saved sub tr :
    Enum.guardar io archivos_csv (Enum.archivo_row drive_id ruta d it) = Some saved ->
    i_folder it = true ->
    d < Enum.max_depth self ->
    preorder (d + 1) (i_id it) (f_ruta (Enum.archivo_row drive_id ruta d it)) sub ->
    children d ruta rest tr ->
    children d ruta (it :: rest) (saved ++ sub ++ tr).

(** The item [it] has been listed at depth [d] in [seen]: [seen] holds,
    one after the other, the requests of all the pages of the listing of
    some node; the loop over these pages has ended without raising, on a
    page without cursor or on an answer other than 200; and [it] stands on
    one of the pages, which was answered with status 200. *)
Definition listed_in (seen : list event) (d : Z) (it : item) : Prop :=
  exists id reqs out before after u data,
    page_loop (get_children G) budget (Enum.children_url drive_id id) [] = (reqs, out)
    /\ (exists items, out = Exhausted items \/ out = Refused items)
    /\ seen = before ++ (ListChildren d <$> reqs) ++ after
    /\ u ∈ reqs
    /\ get_children G u = Status 200 (Some data)
    /\ it ∈ default [] (value data).

(** A file row is [sourced] by the events before it when it describes an
    item that has been listed in them at the depth of the row. *)
Definition sourced (seen : list event) (e : event) : Prop :=
  match e with
  | Append _ (FileRow r) =>
      exists it ruta,
        listed_in seen (f_profundidad r) it
        /\ r = Enum.archivo_row drive_id ruta (f_profundidad r) it
  | _ => True
  end.

Fixpoint all_sourced (seen tr : list event) : Prop :=
  match tr with
  | [] => True
  | e :: rest => sourced seen e /\ all_sourced (seen ++ [e]) rest
  end.

End Walk.

(** ** Containers and resolution *)

(** The loop both scripts use to merge the full list into the containers
    found so far: an element is appended unless its key is there already. *)
Definition add_fresh {X Y K : Type} `{EqDecision K} (key : X -> K) (key_of : Y -> K)
    (mk : Y -> X) (acc : list X) (y : Y) : list X :=
  if bool_decide (key_of y ∉ key <$> acc) then acc ++ [mk y] else acc.

(** The identity lookup is answered and finds nobody: status 200 with no
    user, or a status other than 200 (403 among them). *)
Definition lookup_misses (G : Graph) (email : string) : Prop :=
  (exists data, get_users G (Explorer.users_url email) = Status 200 (Some data)
                /\ default [] (value data) = [])
  \/ (exists code body, get_users G (Explorer.users_url email) = Status code body
                        /\ code <> 200).

(** Two states of the explorer that differ at most in [self.drive_id]. *)
Definition same_lists (s s' : Explorer.explorer) : Prop :=
  Explorer.available_drives s' = Explorer.available_drives s
  /\ Explorer.requests s' = Explorer.requests s.

(** The state METHOD 2 works in once the search has returned. *)
Definition after_search (s : Explorer.explorer) (email : string) (more : list string)
    (avail : list Explorer.entry) : Explorer.explorer :=
  {| Explorer.drive_id := Explorer.drive_id s;
     Explorer.available_drives := avail;
     Explorer.requests :=
       Explorer.requests s ++ Explorer.users_url email :: Explorer.search_url email :: more |}.

(** ** Jobs and the whole run *)

(** The user rows and the site rows of a trace, in the order written. *)
Definition user_rows_of (tr : list event) : list UserRecord :=
  omap (fun e => match e with Append _ (UserRow r) => Some r | _ => None end) tr.








(** An event of a walk of [drive_id] that writes to [file] under the path
    [under]: a listing request, or a row of that drive appended to that
    file whose path begins with [under]. *)
Definition walk_event (drive_id : option string) (file : option string) (under : string)
    (e : event) : Prop :=
  match e with
  | ListChildren _ _ => True
  | Append f (FileRow r) =>
      file = Some f /\ f_drive_id r = drive_id /\ Py.startswith under (f_ruta r) = true
  | _ => False
  end.

(** ** The explorer *)

(** What one site contributes to the tenant-wide search. *)
Definition site_drives (G : Graph) (st : site) : list drive :=
  match get_drives G (Explorer.graph +:+ "/sites/" +:+ Py.fmt (s_id st) +:+ "/drives") with
  | Status code (Some data) => if code =? 200 then default [] (value data) else []
  | _ => []
  end.

(** A path as the browser keeps it: ["/"], or a non-empty string without a
    trailing slash. *)
Definition normal_path (path : string) : Prop :=
  path = "/" \/ (path <> EmptyString /\ Py.rstrip "/"%char path = path).

(** A method settles [self.drive_id] by what it returns: with a result
    that counts as a success the drive is one of [self.available_drives];
    with any other result, and when it raises, the drive is the one from
    before. *)
Definition settles {A : Type} (won : A -> bool) (m : Explorer.M A) : Prop :=
  forall s,
    match m s with
    | (Explorer.Returns a, s') =>
        if won a
        then exists d, d ∈ Explorer.available_drives s'
                       /\ Explorer.drive_id s' = Explorer.e_id d
        else Explorer.drive_id s' = Explorer.drive_id s
    | (Explorer.Throws, s') => Explorer.drive_id s' = Explorer.drive_id s
    end.

(** Results of the first resolution path that count as a success. *)
Definition found_drive (found : option bool) : bool :=
  match found with Some true => true | _ => false end.

(** * Proofs *)

(** ** Pagination (PageFetcher) *)

Section Pages.
Context {A : Type} (get : string -> response (page A)).

Lemma page_loop_serves url pages :
  serves get url pages ->
  forall budget items, (length pages <= budget)%nat ->
    exists reqs, page_loop get budget url items = (reqs, Exhausted (items ++ concat pages))
                 /\ length reqs = length pages.
Proof.
  induction 1 as [url batch next Hget Hnext | url batch next rest Hget Hnext _ IH];
    intros [|budget] items Hlen; simpl in Hlen; try lia; simpl; rewrite Hget; simpl.
  - exists [url]. rewrite app_nil_r. split; [|done].
    destruct next as [n|]; [|done]. simpl in Hnext. by rewrite Hnext.
  - rewrite Hnext.
    destruct (IH budget (items ++ default [] batch)) as (reqs & -> & Hreqs); [lia|].
    exists (url :: reqs). rewrite <- app_assoc. simpl. by rewrite Hreqs.
Qed.

Lemma page_loop_refused url pages :
  stops_after get refuses url pages ->
  forall budget items, (length pages < budget)%nat ->
    exists reqs, page_loop get budget url items = (reqs, Refused (items ++ concat pages))
                 /\ length reqs = S (length pages).
Proof.
  induction 1 as [url (code & body & Hget & Hcode) | url batch next rest Hget Hnext _ IH];
    intros [|budget] items Hlen; simpl in Hlen; try lia; simpl; rewrite Hget; simpl.
  - exists [url]. rewrite app_nil_r.
    by destruct (Z.eqb_spec code 200).
  - rewrite Hnext.
    destruct (IH budget (items ++ default [] batch)) as (reqs & -> & Hreqs); [lia|].
    exists (url :: reqs). rewrite <- app_assoc. simpl. by rewrite Hreqs.
Qed.

Lemma page_loop_raised url pages :
  stops_after get raises url pages ->
  forall budget items, (length pages < budget)%nat ->
    exists reqs, page_loop get budget url items = (reqs, Raised (items ++ concat pages))
                 /\ length reqs = S (length pages).
Proof.
  induction 1 as [url [Hget | Hget] | url batch next rest Hget Hnext _ IH];
    intros [|budget] items Hlen; simpl in Hlen; try lia; simpl; rewrite Hget; simpl.
  - exists [url]. by rewrite app_nil_r.
  - exists [url]. by rewrite app_nil_r.
  - rewrite Hnext.
    destruct (IH budget (items ++ default [] batch)) as (reqs & -> & Hreqs); [lia|].
    exists (url :: reqs). rewrite <- app_assoc. simpl. by rewrite Hreqs.
Qed.

(** A loop that has ended made at least one request, whatever the budget. *)
Lemma page_loop_requests budget url items :
  match snd (page_loop get budget url items) with
  | Unfinished _ => True
  | _ => fst (page_loop get budget url items) <> []
  end.
Proof.
  destruct budget as [|budget]; simpl; [done|].
  destruct (get url) as [|code [data|]]; simpl; try done.
  - destruct (code =? 200); simpl; [|done].
    destruct (nextLink data) as [next|]; [|done].
    destruct (Py.truthy next); [|done].
    destruct (page_loop get budget next _) as [reqs out]; simpl. by destruct out.
  - by destruct (code =? 200).
Qed.

(** Every item a loop has collected beyond its initial [items] comes from
    a page answered with status 200 to one of its requests. *)
Lemma page_loop_collected budget url items x :
  x ∈ collected (snd (page_loop get budget url items)) ->
  x ∈ items \/
  exists u data, u ∈ fst (page_loop get budget url items)
                 /\ get u = Status 200 (Some data)
                 /\ x ∈ default [] (value data).
Proof.
  revert url items. induction budget as [|budget IH]; intros url items; simpl; [by left|].
  destruct (get url) as [|code [data|]] eqn:Hget; simpl; try by left.
  - destruct (Z.eqb_spec code 200) as [->|]; simpl; [|by left].
    assert (Hhere : x ∈ items ++ default [] (value data) ->
              x ∈ items \/ exists u d, u ∈ [url] /\ get u = Status 200 (Some d)
                                        /\ x ∈ default [] (value d)).
    { intros [?|?]%elem_of_app; [by left|right].
      exists url, data. split; [apply list_elem_of_singleton; done|done]. }
    destruct (nextLink data) as [next|]; [|exact Hhere].
    destruct (Py.truthy next); [|exact Hhere].
    specialize (IH next (items ++ default [] (value data))).
    destruct (page_loop get budget next _) as [reqs out]; simpl in *.
    intros Hx. destruct (IH Hx) as [Hin | (u & d & Hu & Hd & Hxd)].
    + destruct (Hhere Hin) as [?|(u & d & Hu & Hd & Hxd)]; [by left|right].
      exists u, d. split; [|done].
      apply list_elem_of_singleton in Hu as ->. apply list_elem_of_here.
    + right. exists u, d. split; [by apply list_elem_of_further|done].
  - destruct (code =? 200); by left.
Qed.

End Pages.

Lemma length_concat_pages {A} (pages : list (list A)) :
  length (concat pages) = sum_list (length <$> pages).
Proof.
  induction pages as [|batch pages IH]; simpl; [done|].
  by rewrite length_app, IH.
Qed.

(** C3.  A collection of N items served in pages, however it is cut, is
    returned whole and in page order by [listar_todos_los_usuarios] and by
    [list_files], with one request per page, as soon as the page budget
    covers the number of pages; N is the sum of the page sizes. *)
Theorem pages_all_returned (G : Graph) (budget : nat) (pages : list (list user))
    (listing : list (list item)) (d : string) (item_id : option string) :
  (serves (get_users G) (Enum.graph +:+ "/users?$top=200") pages ->
   (length pages <= budget)%nat ->
   snd (Enum.listar_todos_los_usuarios G budget) = Some (concat pages)
   /\ length (fst (Enum.listar_todos_los_usuarios G budget)) = length pages
   /\ length (concat pages) = sum_list (length <$> pages))
  /\
  (Py.truthy d = true ->
   serves (get_children G) (Explorer.children_url d item_id) listing ->
   (length listing <= budget)%nat ->
   snd (Explorer.list_files G budget (Some d) item_id) = Some (concat listing)
   /\ length (fst (Explorer.list_files G budget (Some d) item_id)) = length listing
   /\ length (concat listing) = sum_list (length <$> listing)).
Proof.
  split.
  - intros Hserves Hlen.
    destruct (page_loop_serves _ _ _ Hserves budget [] Hlen) as (reqs & Hloop & Hreqs).
    unfold Enum.listar_todos_los_usuarios. rewrite Hloop. simpl.
    by rewrite length_fmap, length_concat_pages.
  - intros Hd Hserves Hlen.
    destruct (page_loop_serves _ _ _ Hserves budget [] Hlen) as (reqs & Hloop & Hreqs).
    unfold Explorer.list_files. rewrite Hd, Hloop. simpl.
    by rewrite length_fmap, length_concat_pages.
Qed.

Lemma pages_all_returned_witness :
  snd (Enum.listar_todos_los_usuarios Samples.two_pages 5)
  = Some [Samples.ana; Samples.luis; Samples.eva].
Proof.
  refine (proj1 (proj1 (pages_all_returned Samples.two_pages 5
            [[Samples.ana; Samples.luis]; [Samples.eva]] [] "" None) _ _)).
  - apply (serves_more _ _ (Some [Samples.ana; Samples.luis]) "https://next/2" [[Samples.eva]]);
      [reflexivity | reflexivity |].
    apply (serves_last _ _ (Some [Samples.eva]) None); reflexivity.
  - simpl. lia.
Defined.

(** C4 as amended.  When a page request is answered with a status other
    than 200, both fetchers stop at that page and return the items of the
    pages before it.  When a page request raises, [listar_todos_los_usuarios]
    does the same, and [list_files] returns the empty list.  In every case
    the failing request is the last one made, and the fetcher returns a
    list: nothing is raised to the caller. *)
Theorem fetch_stops_at_failure (G : Graph) (budget : nat) (pages : list (list user))
    (listing : list (list item)) (d : string) (item_id : option string) :
  ((stops_after (get_users G) refuses (Enum.graph +:+ "/users?$top=200") pages
    \/ stops_after (get_users G) raises (Enum.graph +:+ "/users?$top=200") pages) ->
   (length pages < budget)%nat ->
   snd (Enum.listar_todos_los_usuarios G budget) = Some (concat pages)
   /\ length (fst (Enum.listar_todos_los_usuarios G budget)) = S (length pages))
  /\
  (Py.truthy d = true ->
   stops_after (get_children G) refuses (Explorer.children_url d item_id) listing ->
   (length listing < budget)%nat ->
   snd (Explorer.list_files G budget (Some d) item_id) = Some (concat listing)
   /\ length (fst (Explorer.list_files G budget (Some d) item_id)) = S (length listing))
  /\
  (Py.truthy d = true ->
   stops_after (get_children G) raises (Explorer.children_url d item_id) listing ->
   (length listing < budget)%nat ->
   snd (Explorer.list_files G budget (Some d) item_id) = Some []
   /\ length (fst (Explorer.list_files G budget (Some d) item_id)) = S (length listing)).
Proof.
  split; [|split].
  - intros Hstops Hlen.
    assert (exists reqs how,
              page_loop (get_users G) budget (Enum.graph +:+ "/users?$top=200") []
              = (reqs, how)
              /\ Enum.returned how = Some (concat pages)
              /\ length reqs = S (length pages)) as (reqs & how & Hloop & Hret & Hreqs).
    { destruct Hstops as [Hstop | Hstop].
      - destruct (page_loop_refused _ _ _ Hstop budget [] Hlen) as (reqs & Hloop & Hreqs).
        by exists reqs, (Refused (concat pages)).
      - destruct (page_loop_raised _ _ _ Hstop budget [] Hlen) as (reqs & Hloop & Hreqs).
        by exists reqs, (Raised (concat pages)). }
    unfold Enum.listar_todos_los_usuarios. rewrite Hloop. simpl.
    by rewrite length_fmap.
  - intros Hd Hstop Hlen.
    destruct (page_loop_refused _ _ _ Hstop budget [] Hlen) as (reqs & Hloop & Hreqs).
    unfold Explorer.list_files. rewrite Hd, Hloop. simpl. by rewrite length_fmap.
  - intros Hd Hstop Hlen.
    destruct (page_loop_raised _ _ _ Hstop budget [] Hlen) as (reqs & Hloop & Hreqs).
    unfold Explorer.list_files. rewrite Hd, Hloop. simpl. by rewrite length_fmap.
Qed.

Lemma fetch_stops_at_failure_witness :
  snd (Enum.listar_todos_los_usuarios Samples.second_page_503 5)
  = Some [Samples.ana; Samples.luis].
Proof.
  refine (proj1 (proj1 (fetch_stops_at_failure Samples.second_page_503 5
            [[Samples.ana; Samples.luis]] [] "" None) _ _)).
  - left.
    apply (stops_later _ _ _ (Some [Samples.ana; Samples.luis]) "https://next/2" []);
      [reflexivity | reflexivity |].
    apply stops_here. exists 503, None. split; [reflexivity | lia].
  - simpl. lia.
Defined.

(** C4 as stated fails for [list_files]: the first page of the root listing
    holds one item, the request for the second page raises, and the item is
    not returned. *)
Lemma fetch_stops_at_failure_counterexample :
  stops_after (get_children Samples.second_page_timeout) raises
    (Explorer.children_url "b!x" None) [[Samples.informe]]
  /\ snd (Explorer.list_files Samples.second_page_timeout 5 (Some "b!x") None)
     <> Some (concat [[Samples.informe]]).
Proof.
  split.
  - apply (stops_later _ _ _ (Some [Samples.informe]) "https://next/2" []);
      [reflexivity | reflexivity |].
    apply stops_here. by left.
  - vm_compute. discriminate.
Qed.

(** ** Depth bound of the walk (TreeTraverser) *)

Section WalkProofs.
Context (G : Graph) (io : storage) (self : Enum.enumerator) (budget : nat)
        (drive_id : option string) (archivos_csv : option string).

Local Abbreviation D := (Enum.max_depth self).
Local Abbreviation walk := (Enum.listar_archivos_recursivo G io self budget).
Local Abbreviation row := (Enum.archivo_row drive_id).

Lemma within_weaken lo lo' hi e : lo <= lo' -> within lo' hi e -> within lo hi e.
Proof. destruct e as [| | | |? []]; simpl; lia. Qed.

(** What [guardar] writes is nothing, or the row it was given. *)
Lemma guardar_cases r saved :
  Enum.guardar io archivos_csv r = Some saved ->
  saved = [] \/ exists file, archivos_csv = Some file /\ saved = [Append file (FileRow r)].
Proof.
  unfold Enum.guardar, Enum.append.
  destruct archivos_csv as [file|]; [|intros [= <-]; by left].
  destruct (Py.truthy file); [|intros [= <-]; by left].
  destruct (io file (FileRow r)); [|done].
  intros [= <-]. right. by exists file.
Qed.

Lemma guardar_within lo hi ruta p it saved :
  lo <= p <= hi ->
  Enum.guardar io archivos_csv (row ruta p it) = Some saved ->
  Forall (within lo hi) saved.
Proof.
  intros Hp [->|(file & _ & ->)]%guardar_cases; repeat constructor; simpl; lia.
Qed.

Lemma procesar_items_within recurse ruta p items :
  p <= D ->
  (p < D -> forall id r, Forall (within (p + 1) D) (fst (recurse id r))) ->
  Forall (within p D)
    (fst (Enum.procesar_items recurse io self drive_id ruta p archivos_csv items)).
Proof.
  intros Hp Hrec. induction items as [|it rest IH]; simpl; [constructor|].
  destruct (Enum.guardar io archivos_csv (row ruta p it)) as [saved|] eqn:Hsaved; [|done].
  assert (Hsub : Forall (within p D)
            (fst (if i_folder it && (p <? D)
                  then recurse (i_id it) (f_ruta (row ruta p it))
                  else ([], true)))).
  { destruct (i_folder it); simpl; [|constructor].
    destruct (Z.ltb_spec p D); [|constructor].
    eapply Forall_impl; [by apply Hrec|].
    intros e. apply within_weaken. lia. }
  destruct (if i_folder it && (p <? D) then _ else _) as [sub ok]; simpl in Hsub.
  pose proof (guardar_within p D ruta p it saved (conj (Z.le_refl p) Hp) Hsaved) as Hrow.
  destruct ok.
  - destruct (Enum.procesar_items _ _ _ _ _ _ _ rest) as [more ok']; simpl in *.
    by repeat apply Forall_app_2.
  - simpl. by apply Forall_app_2.
Qed.

Lemma walk_within stack item_id ruta p :
  Forall (within p D) (fst (walk stack drive_id item_id ruta p archivos_csv)).
Proof.
  revert item_id ruta p. induction stack as [|stack IH]; intros item_id ruta p; simpl.
  - destruct (p >? D); constructor.
  - destruct (Z.gtb_spec p D) as [|Hp]; [constructor|].
    destruct (page_loop _ _ _ _) as [reqs out].
    assert (Hlisted : Forall (within p D) (ListChildren p <$> reqs)).
    { apply Forall_fmap, Forall_true. intros u. simpl. lia. }
    destruct out as [items|items|items|items]; simpl; try done.
    + pose proof (procesar_items_within
        (fun sub_id sub_ruta => walk stack drive_id sub_id sub_ruta (p + 1) archivos_csv)
        ruta p items Hp (fun _ id r => IH id r (p + 1))) as Hitems.
      destruct (Enum.procesar_items _ _ _ _ _ _ _ items) as [evs ok]; simpl in *.
      by apply Forall_app_2.
    + pose proof (procesar_items_within
        (fun sub_id sub_ruta => walk stack drive_id sub_id sub_ruta (p + 1) archivos_csv)
        ruta p items Hp (fun _ id r => IH id r (p + 1))) as Hitems.
      destruct (Enum.procesar_items _ _ _ _ _ _ _ items) as [evs ok]; simpl in *.
      by apply Forall_app_2.
Qed.

(** At the depth limit the item loop writes the row of every item whose
    append goes through and makes no recursive call. *)
Lemma procesar_items_at_limit recurse ruta items :
  Enum.procesar_items recurse io self drive_id ruta D archivos_csv items
  = (flat_map (fun it => default [] (Enum.guardar io archivos_csv (row ruta D it))) items,
     true).
Proof.
  induction items as [|it rest IH]; simpl; [done|].
  rewrite Z.ltb_irrefl, andb_false_r, IH.
  by destruct (Enum.guardar io archivos_csv (row ruta D it)).
Qed.

Lemma walk_at_limit stack item_id ruta :
  walk (S stack) drive_id item_id ruta D archivos_csv
  = let lst := page_loop (get_children G) budget (Enum.children_url drive_id item_id) [] in
    ((ListChildren D <$> fst lst)
       ++ match snd lst with
          | Exhausted items | Refused items =>
              flat_map
                (fun it => default [] (Enum.guardar io archivos_csv (row ruta D it))) items
          | _ => []
          end,
     match snd lst with Unfinished _ => false | _ => true end).
Proof.
  simpl. destruct (Z.gtb_spec D D) as [|_]; [lia|].
  destruct (page_loop _ _ _ _) as [reqs out].
  destruct out as [items|items|items|items]; simpl;
    rewrite ?procesar_items_at_limit, ?app_nil_r; done.
Qed.

End WalkProofs.

Lemma rows_of_within (lo hi : Z) (tr : list event) :
  Forall (within lo hi) tr ->
  Forall (fun r => lo <= f_profundidad r <= hi) (rows_of tr)
  /\ Forall (fun d => lo <= d <= hi) (listing_depths tr).
Proof.
  induction 1 as [|e tr He _ [IHrows IHlist]]; [by split|].
  unfold rows_of, listing_depths in *.
  destruct e as [| | |d u|file [| | |r]]; simpl in *; try done.
  - split; [done|by constructor].
  - split; [by constructor|done].
Qed.

(** C1.  Whatever the service and the storage, the depth limit D, the
    starting node and depth, and however far the walk has got: every file
    row written carries a depth between the starting depth and D, and every
    children-listing request is made by an invocation running at such a
    depth.  The children of an item emitted at depth d are listed by an
    invocation running at depth d + 1, so no listing request is made for an
    item emitted at depth D: an invocation running at depth D requests the
    pages of its own listing, writes the row of every item listed, folders
    included, unless the append of the row raises, and makes no recursive
    call. *)
Theorem depth_bounded (G : Graph) (io : storage) (self : Enum.enumerator)
    (budget stack : nat) (drive_id item_id : option string) (ruta : string)
    (profundidad : Z) (archivos_csv : option string) :
  Forall (within profundidad (Enum.max_depth self))
    (fst (Enum.listar_archivos_recursivo G io self budget stack drive_id item_id ruta
            profundidad archivos_csv))
  /\
  Forall (fun r => profundidad <= f_profundidad r <= Enum.max_depth self)
    (rows_of (fst (Enum.listar_archivos_recursivo G io self budget stack drive_id item_id
                     ruta profundidad archivos_csv)))
  /\
  Forall (fun d => profundidad <= d <= Enum.max_depth self)
    (listing_depths
       (fst (Enum.listar_archivos_recursivo G io self budget stack drive_id item_id ruta
               profundidad archivos_csv)))
  /\
  Enum.listar_archivos_recursivo G io self budget (S stack) drive_id item_id ruta
    (Enum.max_depth self) archivos_csv
  = let lst := page_loop (get_children G) budget (Enum.children_url drive_id item_id) [] in
    ((ListChildren (Enum.max_depth self) <$> fst lst)
       ++ match snd lst with
          | Exhausted items | Refused items =>
              flat_map
                (fun it =>
                   default []
                     (Enum.guardar io archivos_csv
                        (Enum.archivo_row drive_id ruta (Enum.max_depth self) it)))
                items
          | _ => []
          end,
     match snd lst with Unfinished _ => false | _ => true end).
Proof.
  pose proof (walk_within G io self budget drive_id archivos_csv stack item_id ruta
                profundidad) as Hwithin.
  destruct (rows_of_within _ _ _ Hwithin) as [Hrows Hlistings].
  repeat split; try done. apply walk_at_limit.
Qed.

(** ** Termination of the walk *)

Section WalkTermination.
Context (G : Graph) (io : storage) (self : Enum.enumerator) (budget : nat)
        (drive_id : option string) (archivos_csv : option string).

Local Abbreviation D := (Enum.max_depth self).
Local Abbreviation walk := (Enum.listar_archivos_recursivo G io self budget).

Lemma stack_bound_beyond p : p > D -> stack_bound self p = O.
Proof. unfold stack_bound. lia. Qed.

Lemma stack_bound_step p : p <= D -> stack_bound self p = S (stack_bound self (p + 1)).
Proof. unfold stack_bound. lia. Qed.

Lemma walk_beyond stack item_id ruta p :
  p > D -> walk stack drive_id item_id ruta p archivos_csv = ([], true).
Proof.
  intros Hp. destruct stack; simpl; by destruct (Z.gtb_spec p D); try lia.
Qed.

(** The item loop depends on the recursive call only below the limit. *)
Lemma procesar_items_ext recurse1 recurse2 ruta p items :
  (p < D -> forall id r, recurse1 id r = recurse2 id r) ->
  Enum.procesar_items recurse1 io self drive_id ruta p archivos_csv items
  = Enum.procesar_items recurse2 io self drive_id ruta p archivos_csv items.
Proof.
  intros Hrec. induction items as [|it rest IH]; simpl; [done|].
  rewrite IH.
  destruct (Enum.guardar io archivos_csv _) as [saved|]; [|done].
  destruct (i_folder it); simpl; [|done].
  destruct (Z.ltb_spec p D); [|done].
  by rewrite Hrec.
Qed.

Lemma procesar_items_returns recurse ruta p items :
  (p < D -> forall id r, snd (recurse id r) = true) ->
  snd (Enum.procesar_items recurse io self drive_id ruta p archivos_csv items) = true.
Proof.
  intros Hrec. induction items as [|it rest IH]; simpl; [done|].
  destruct (Enum.guardar io archivos_csv _) as [saved|]; [|done].
  assert (Hsub : snd (if i_folder it && (p <? D)
                      then recurse (i_id it) (f_ruta (Enum.archivo_row drive_id ruta p it))
                      else ([], true)) = true).
  { destruct (i_folder it); simpl; [|done].
    destruct (Z.ltb_spec p D); [by apply Hrec|done]. }
  destruct (if i_folder it && (p <? D) then _ else _) as [sub ok]; simpl in Hsub.
  subst ok.
  by destruct (Enum.procesar_items _ _ _ _ _ _ _ rest) as [more ok'].
Qed.

(** More stack than [stack_bound] changes nothing. *)
Lemma walk_stack_irrelevant stack item_id ruta p :
  (stack_bound self p <= stack)%nat ->
  walk stack drive_id item_id ruta p archivos_csv
  = walk (stack_bound self p) drive_id item_id ruta p archivos_csv.
Proof.
  revert item_id ruta p. induction stack as [|stack IH]; intros item_id ruta p Hstack.
  - by replace (stack_bound self p) with O by lia.
  - destruct (Z.gtb_spec p D) as [Hp|Hp].
    { by rewrite !walk_beyond by lia. }
    rewrite (stack_bound_step p Hp) in Hstack |- *. simpl.
    destruct (Z.gtb_spec p D) as [|_]; [lia|].
    destruct (page_loop _ _ _ _) as [reqs out].
    destruct out as [items|items|items|items]; try done;
      by rewrite (procesar_items_ext _
            (fun sub_id sub_ruta =>
               walk (stack_bound self (p + 1)) drive_id sub_id sub_ruta (p + 1) archivos_csv))
        by (intros _ id r; apply IH; lia).
Qed.

Lemma walk_returns_at_bound item_id ruta p :
  listings_end G budget ->
  forall stack, stack = stack_bound self p ->
  snd (walk stack drive_id item_id ruta p archivos_csv) = true.
Proof.
  intros Hend stack. revert item_id ruta p.
  induction stack as [|stack IH]; intros item_id ruta p Hstack.
  - simpl. destruct (Z.gtb_spec p D) as [|Hp]; [done|].
    rewrite (stack_bound_step p Hp) in Hstack. done.
  - simpl. destruct (Z.gtb_spec p D) as [|Hp]; [done|].
    rewrite (stack_bound_step p Hp) in Hstack.
    pose proof (Hend (Enum.children_url drive_id item_id)) as Hlst.
    destruct (page_loop _ _ _ _) as [reqs out]. simpl in Hlst.
    destruct out as [items|items|items|items]; try done.
    + pose proof (procesar_items_returns
        (fun sub_id sub_ruta => walk stack drive_id sub_id sub_ruta (p + 1) archivos_csv)
        ruta p items (fun _ id r => IH id r (p + 1) ltac:(lia))) as Hitems.
      by destruct (Enum.procesar_items _ _ _ _ _ _ _ items) as [evs ok].
    + pose proof (procesar_items_returns
        (fun sub_id sub_ruta => walk stack drive_id sub_id sub_ruta (p + 1) archivos_csv)
        ruta p items (fun _ id r => IH id r (p + 1) ltac:(lia))) as Hitems.
      by destruct (Enum.procesar_items _ _ _ _ _ _ _ items) as [evs ok].
Qed.

End WalkTermination.

(** A loop that has ended does the same with a larger budget. *)
Lemma page_loop_mono {A} (get : string -> response (page A)) (n : nat) :
  forall url items m,
    ended (snd (page_loop get n url items)) ->
    (n <= m)%nat ->
    page_loop get m url items = page_loop get n url items.
Proof.
  induction n as [|n IH]; intros url items m Hend Hle; simpl in Hend; [done|].
  destruct m as [|m]; [lia|]. simpl.
  destruct (get url) as [|code [data|]]; try done.
  destruct (code =? 200); [|done].
  destruct (nextLink data) as [next|]; [|done].
  destruct (Py.truthy next); [|done].
  rewrite (IH next (items ++ default [] (value data)) m); [done| |lia].
  by destruct (page_loop get n next _).
Qed.

Section WalkBudget.
Context (G : Graph) (io : storage) (self : Enum.enumerator)
        (drive_id : option string) (archivos_csv : option string).

Local Abbreviation D := (Enum.max_depth self).
Local Abbreviation walk := (Enum.listar_archivos_recursivo G io self).

Lemma procesar_items_mono recurse recurse' ruta p items :
  (p < D -> forall id r, snd (recurse id r) = true -> recurse' id r = recurse id r) ->
  snd (Enum.procesar_items recurse io self drive_id ruta p archivos_csv items) = true ->
  Enum.procesar_items recurse' io self drive_id ruta p archivos_csv items
  = Enum.procesar_items recurse io self drive_id ruta p archivos_csv items.
Proof.
  intros Hrec. induction items as [|it rest IH]; simpl; [done|].
  destruct (Enum.guardar io archivos_csv _) as [saved|]; [|done].
  destruct (i_folder it && (p <? D)) eqn:Hcond.
  - apply andb_true_iff in Hcond as [_ Hlt%Z.ltb_lt].
    specialize (Hrec Hlt (i_id it) (f_ruta (Enum.archivo_row drive_id ruta p it))).
    simpl in Hrec.
    destruct (recurse _ _) as [sub ok]. destruct ok; [|done].
    rewrite Hrec by done.
    destruct (Enum.procesar_items recurse _ _ _ _ _ _ rest) as [more ok']; simpl in *.
    intros ->. by rewrite IH.
  - destruct (Enum.procesar_items recurse _ _ _ _ _ _ rest) as [more ok']; simpl in *.
    intros ->. by rewrite IH.
Qed.

(** A walk that has returned does the same with a larger page budget. *)
Lemma walk_budget_mono stack : forall budget item_id ruta p budget',
  snd (walk budget stack drive_id item_id ruta p archivos_csv) = true ->
  (budget <= budget')%nat ->
  walk budget' stack drive_id item_id ruta p archivos_csv
  = walk budget stack drive_id item_id ruta p archivos_csv.
Proof.
  induction stack as [|stack IH]; intros budget item_id ruta p budget' Hret Hle;
    simpl in *; [done|].
  destruct (p >? D); [done|].
  pose proof (page_loop_mono (get_children G) budget
                (Enum.children_url drive_id item_id) [] budget') as Hmono.
  destruct (page_loop (get_children G) budget _ _) as [reqs out]. simpl in Hmono.
  destruct out as [items|items|items|items]; try done; rewrite Hmono by done; try done.
  - pose proof (procesar_items_mono
        (fun sub_id sub_ruta => walk budget stack drive_id sub_id sub_ruta (p + 1) archivos_csv)
        (fun sub_id sub_ruta => walk budget' stack drive_id sub_id sub_ruta (p + 1) archivos_csv)
        ruta p items (fun _ id r Hr => IH budget id r (p + 1) budget' Hr Hle)) as Hitems.
    destruct (Enum.procesar_items
                (fun sub_id sub_ruta =>
                   walk budget stack drive_id sub_id sub_ruta (p + 1) archivos_csv)
                _ _ _ _ _ _ items)
      as [evs ok]. simpl in *. by rewrite Hitems.
  - pose proof (procesar_items_mono
        (fun sub_id sub_ruta => walk budget stack drive_id sub_id sub_ruta (p + 1) archivos_csv)
        (fun sub_id sub_ruta => walk budget' stack drive_id sub_id sub_ruta (p + 1) archivos_csv)
        ruta p items (fun _ id r Hr => IH budget id r (p + 1) budget' Hr Hle)) as Hitems.
    destruct (Enum.procesar_items
                (fun sub_id sub_ruta =>
                   walk budget stack drive_id sub_id sub_ruta (p + 1) archivos_csv)
                _ _ _ _ _ _ items)
      as [evs ok]. simpl in *. by rewrite Hitems.
Qed.

(** The item loop returns for every budget large enough when each
    recursive call does. *)
Lemma procesar_items_eventually stack ruta p items :
  (forall id r, exists b0, forall b, (b0 <= b)%nat ->
      snd (walk b stack drive_id id r (p + 1) archivos_csv) = true) ->
  exists b1, forall b, (b1 <= b)%nat ->
    snd (Enum.procesar_items
           (fun sub_id sub_ruta => walk b stack drive_id sub_id sub_ruta (p + 1) archivos_csv)
           io self drive_id ruta p archivos_csv items) = true.
Proof.
  intros Hrec. induction items as [|it rest (b1 & IH)]; [by exists O|].
  destruct (Hrec (i_id it) (f_ruta (Enum.archivo_row drive_id ruta p it))) as (b0 & Hsub).
  exists (Nat.max b0 b1). intros b Hb. simpl.
  specialize (Hsub b ltac:(lia)). specialize (IH b ltac:(lia)).
  destruct (Enum.guardar io archivos_csv _) as [saved|]; [|done].
  destruct (i_folder it && (p <? D)).
  - destruct (walk b stack _ _ _ _ _) as [sub ok]. simpl in Hsub. subst ok.
    by destruct (Enum.procesar_items _ _ _ _ _ _ _ rest).
  - by destruct (Enum.procesar_items _ _ _ _ _ _ _ rest).
Qed.

Lemma walk_returns_eventually :
  finite_listings G ->
  forall stack item_id ruta p, stack = stack_bound self p ->
    exists b0, forall b, (b0 <= b)%nat ->
      snd (walk b stack drive_id item_id ruta p archivos_csv) = true.
Proof.
  intros Hfin stack. induction stack as [|stack IH]; intros item_id ruta p Hstack.
  - exists O. intros b _. simpl.
    destruct (Z.gtb_spec p D) as [|Hp]; [done|].
    unfold stack_bound in Hstack. lia.
  - destruct (Z.gtb_spec p D) as [Hp|Hp].
    { unfold stack_bound in Hstack. lia. }
    destruct (Hfin (Enum.children_url drive_id item_id)) as (n0 & Hn0).
    destruct (procesar_items_eventually stack ruta p
                (collected (snd (page_loop (get_children G) n0
                                   (Enum.children_url drive_id item_id) []))))
      as (b1 & Hitems).
    { intros id r. apply IH. unfold stack_bound in *. lia. }
    exists (Nat.max n0 b1). intros b Hb. simpl.
    destruct (Z.gtb_spec p D) as [|_]; [lia|].
    rewrite (page_loop_mono (get_children G) n0 _ [] b Hn0) by lia.
    specialize (Hitems b ltac:(lia)).
    destruct (page_loop (get_children G) n0 _ _) as [reqs out]. simpl in *.
    destruct out as [items|items|items|items]; simpl in Hitems; try done.
    + by destruct (Enum.procesar_items _ _ _ _ _ _ _ items).
    + by destruct (Enum.procesar_items _ _ _ _ _ _ _ items).
Qed.

End WalkBudget.

(** C10.  The walk needs a stack of at most max(0, max_depth - start + 1)
    nested invocations: with that much or more, what it does is the same
    for every stack; it returns when every listing ends within the page
    budget; and when every listing of the service is finite it returns for
    every page budget large enough.  A walk started beyond the limit returns
    at once, with no request made and no row written.  All of it holds for
    every service and storage, every integer limit, and every starting node
    and depth. *)
Theorem walk_returns (G : Graph) (io : storage) (self : Enum.enumerator)
    (budget stack : nat) (drive_id item_id : option string) (ruta : string)
    (profundidad : Z) (archivos_csv : option string) :
  stack_bound self profundidad
  = Z.to_nat (Z.max 0 (Enum.max_depth self - profundidad + 1))
  /\
  ((stack_bound self profundidad <= stack)%nat ->
   Enum.listar_archivos_recursivo G io self budget stack drive_id item_id ruta
     profundidad archivos_csv
   = Enum.listar_archivos_recursivo G io self budget (stack_bound self profundidad)
       drive_id item_id ruta profundidad archivos_csv
   /\ (listings_end G budget ->
       snd (Enum.listar_archivos_recursivo G io self budget stack drive_id item_id ruta
              profundidad archivos_csv) = true)
   /\ (finite_listings G ->
       exists enough, forall pages, (enough <= pages)%nat ->
         snd (Enum.listar_archivos_recursivo G io self pages stack drive_id item_id ruta
                profundidad archivos_csv) = true))
  /\
  (profundidad > Enum.max_depth self ->
   Enum.listar_archivos_recursivo G io self budget stack drive_id item_id ruta
     profundidad archivos_csv = ([], true)).
Proof.
  split; [done|]. split.
  - intros Hstack. split; [|split].
    + by apply walk_stack_irrelevant.
    + intros Hend. rewrite walk_stack_irrelevant by done.
      by apply walk_returns_at_bound.
    + intros Hfin.
      destruct (walk_returns_eventually G io self drive_id archivos_csv Hfin
                  (stack_bound self profundidad) item_id ruta profundidad eq_refl)
        as (enough & Hret).
      exists enough. intros pages Hpages.
      rewrite walk_stack_irrelevant by done. by apply Hret.
  - apply walk_beyond.
Qed.

Lemma small_tree_listings_end : listings_end Samples.small_tree 5.
Proof.
  intros url. simpl.
  repeat (case_bool_decide; simpl; try done).
Qed.

Lemma walk_returns_witness :
  snd (Enum.listar_archivos_recursivo Samples.small_tree Samples.fotos_unwritable
         (Samples.depth 1) 5 7 (Some "b!x") None "/" 0 (Some "archivos.csv")) = true
  /\ Enum.listar_archivos_recursivo Samples.small_tree Samples.writable (Samples.depth (-1))
       5 0 (Some "b!x") None "/" 0 (Some "archivos.csv") = ([], true).
Proof.
  split.
  - refine (proj1 (proj2 (proj1 (proj2 (walk_returns Samples.small_tree
              Samples.fotos_unwritable (Samples.depth 1) 5 7
              (Some "b!x") None "/" 0 (Some "archivos.csv"))) _)) small_tree_listings_end).
    vm_compute. lia.
  - refine (proj2 (proj2 (walk_returns Samples.small_tree Samples.writable
              (Samples.depth (-1)) 5 0 (Some "b!x") None "/" 0 (Some "archivos.csv"))) _).
    simpl. lia.
Defined.

(** ** Emission order of the walk *)

Section WalkOrder.
Context (G : Graph) (io : storage) (self : Enum.enumerator) (budget : nat)
        (drive_id : option string) (archivos_csv : option string).

Local Abbreviation D := (Enum.max_depth self).
Local Abbreviation walk := (Enum.listar_archivos_recursivo G io self budget).
Local Abbreviation pre := (preorder G io self budget drive_id archivos_csv).
Local Abbreviation kids := (children G io self budget drive_id archivos_csv).
Local Abbreviation listed := (listed_in G budget drive_id).
Local Abbreviation src := (sourced G budget drive_id).
Local Abbreviation all_src := (all_sourced G budget drive_id).

Lemma procesar_items_children recurse ruta p items :
  (p < D -> forall id r, snd (recurse id r) = true -> pre (p + 1) id r (fst (recurse id r))) ->
  snd (Enum.procesar_items recurse io self drive_id ruta p archivos_csv items) = true ->
  kids p ruta items
    (fst (Enum.procesar_items recurse io self drive_id ruta p archivos_csv items)).
Proof.
  intros Hrec. induction items as [|it rest IH]; simpl; [constructor|].
  destruct (Enum.guardar io archivos_csv _) as [saved|] eqn:Hsaved.
  - destruct (i_folder it && (p <? D)) eqn:Hcond.
    + apply andb_true_iff in Hcond as [Hfolder Hlt%Z.ltb_lt].
      specialize (Hrec Hlt (i_id it) (f_ruta (Enum.archivo_row drive_id ruta p it))).
      destruct (recurse _ _) as [sub ok]. destruct ok; [|done].
      destruct (Enum.procesar_items _ _ _ _ _ _ _ rest) as [more ok']; simpl in *.
      intros ->. apply ch_folder; auto.
    + destruct (Enum.procesar_items _ _ _ _ _ _ _ rest) as [more ok']; simpl in *.
      intros ->. apply ch_leaf; auto.
  - intros Hok. apply ch_skipped; auto.
Qed.

Lemma walk_preorder stack item_id ruta p :
  snd (walk stack drive_id item_id ruta p archivos_csv) = true ->
  pre p item_id ruta (fst (walk stack drive_id item_id ruta p archivos_csv)).
Proof.
  revert item_id ruta p. induction stack as [|stack IH]; intros item_id ruta p; simpl.
  - destruct (Z.gtb_spec p D); simpl; [|done]. intros _. apply pre_beyond. lia.
  - destruct (Z.gtb_spec p D) as [|Hp]; simpl; [intros _; apply pre_beyond; lia|].
    destruct (page_loop _ _ _ _) as [reqs out] eqn:Hloop.
    destruct out as [items|items|items|items]; simpl; try done.
    + pose proof (procesar_items_children
        (fun sub_id sub_ruta => walk stack drive_id sub_id sub_ruta (p + 1) archivos_csv)
        ruta p items (fun _ id r => IH id r (p + 1))) as Hitems.
      destruct (Enum.procesar_items _ _ _ _ _ _ _ items) as [evs ok]; simpl in *.
      intros Hok. eapply pre_listed; eauto.
    + pose proof (procesar_items_children
        (fun sub_id sub_ruta => walk stack drive_id sub_id sub_ruta (p + 1) archivos_csv)
        ruta p items (fun _ id r => IH id r (p + 1))) as Hitems.
      destruct (Enum.procesar_items _ _ _ _ _ _ _ items) as [evs ok]; simpl in *.
      intros Hok. eapply pre_listed; eauto.
    + intros _. eapply pre_aborted; eauto.
Qed.

(** What has been listed stays listed as the trace grows. *)
Lemma listed_in_grows seen more p it : listed seen p it -> listed (seen ++ more) p it.
Proof.
  intros (id & reqs & out & before & after & u & data & Hloop & Hout & -> & Hrest).
  exists id, reqs, out, before, (after ++ more), u, data.
  split; [done|]. split; [done|]. split; [|done].
  by rewrite <- !app_assoc.
Qed.

Lemma all_sourced_app seen tr1 tr2 :
  all_src seen tr1 -> all_src (seen ++ tr1) tr2 -> all_src seen (tr1 ++ tr2).
Proof.
  revert seen. induction tr1 as [|e tr1 IH]; intros seen; simpl.
  - by rewrite app_nil_r.
  - intros [He H1] H2. split; [done|]. apply IH; [done|].
    by rewrite <- app_assoc.
Qed.

Lemma all_sourced_split seen tr :
  all_src seen tr ->
  forall before e after, tr = before ++ e :: after -> src (seen ++ before) e.
Proof.
  revert seen. induction tr as [|e' tr IH]; intros seen Hall before e after Heq.
  - by destruct before.
  - destruct Hall as [He' Hrest]. destruct before as [|b before]; simplify_eq/=.
    + by rewrite app_nil_r.
    + specialize (IH _ Hrest before e after eq_refl).
      by rewrite <- app_assoc in IH.
Qed.

Lemma listings_sourced seen p reqs : all_src seen (ListChildren p <$> reqs).
Proof. revert seen. induction reqs as [|u reqs IH]; intros seen; simpl; auto. Qed.

Lemma guardar_sourced seen ruta p it saved :
  listed seen p it ->
  Enum.guardar io archivos_csv (Enum.archivo_row drive_id ruta p it) = Some saved ->
  all_src seen saved.
Proof.
  intros Hit [->|(file & _ & ->)]%guardar_cases; [done|].
  split; [|done]. by exists it, ruta.
Qed.

Lemma procesar_items_sourced recurse ruta p items :
  (forall id r seen, all_src seen (fst (recurse id r))) ->
  forall seen,
    (forall it, it ∈ items -> listed seen p it) ->
    all_src seen (fst (Enum.procesar_items recurse io self drive_id ruta p archivos_csv items)).
Proof.
  intros Hrec. induction items as [|it rest IH]; intros seen Hsrc; simpl; [done|].
  assert (Hrest : forall more,
            all_src (seen ++ more)
              (fst (Enum.procesar_items recurse io self drive_id ruta p archivos_csv rest))).
  { intros more. apply IH. intros it' Hit'.
    by apply listed_in_grows, Hsrc, list_elem_of_further. }
  destruct (Enum.guardar io archivos_csv _) as [saved|] eqn:Hsaved.
  - pose proof (guardar_sourced seen ruta p it saved (Hsrc it (list_elem_of_here _ _)) Hsaved)
      as Hrow.
    assert (Hsub : forall seen',
              all_src seen'
                (fst (if i_folder it && (p <? D)
                      then recurse (i_id it) (f_ruta (Enum.archivo_row drive_id ruta p it))
                      else ([], true)))).
    { intros seen'. destruct (i_folder it && (p <? D)); [apply Hrec|done]. }
    destruct (if i_folder it && (p <? D) then _ else _) as [sub ok]; simpl in Hsub.
    specialize (Hrest (saved ++ sub)).
    destruct ok.
    + destruct (Enum.procesar_items _ _ _ _ _ _ _ rest) as [more ok']; simpl in *.
      apply all_sourced_app; [done|]. apply all_sourced_app; [done|].
      by rewrite <- app_assoc.
    + simpl. by apply all_sourced_app.
  - specialize (Hrest []). by rewrite app_nil_r in Hrest.
Qed.

Lemma walk_sourced stack item_id ruta p seen :
  all_src seen (fst (walk stack drive_id item_id ruta p archivos_csv)).
Proof.
  revert item_id ruta p seen.
  induction stack as [|stack IH]; intros item_id ruta p seen; simpl.
  - by destruct (p >? D).
  - destruct (p >? D); [done|].
    pose proof (page_loop_collected (get_children G) budget
                  (Enum.children_url drive_id item_id) []) as Hcol.
    destruct (page_loop _ _ _ _) as [reqs out] eqn:Hloop. simpl in Hcol.
    assert (Hitems : (exists items, out = Exhausted items \/ out = Refused items) ->
              forall it, it ∈ collected out ->
                listed (seen ++ (ListChildren p <$> reqs)) p it).
    { intros Hout it Hit. destruct (Hcol it Hit) as [Hnil | (u & data & Hu & Hget & Hin)].
      - by apply elem_of_nil in Hnil.
      - exists item_id, reqs, out, seen, [], u, data.
        by rewrite app_nil_r. }
    destruct out as [items|items|items|items]; simpl in *;
      try apply listings_sourced.
    + pose proof (procesar_items_sourced
        (fun sub_id sub_ruta => walk stack drive_id sub_id sub_ruta (p + 1) archivos_csv)
        ruta p items (fun id r s => IH id r (p + 1) s) _
        (Hitems ltac:(by exists items; left))) as Hevs.
      destruct (Enum.procesar_items _ _ _ _ _ _ _ items) as [evs ok]; simpl in *.
      apply all_sourced_app; [apply listings_sourced | done].
    + pose proof (procesar_items_sourced
        (fun sub_id sub_ruta => walk stack drive_id sub_id sub_ruta (p + 1) archivos_csv)
        ruta p items (fun id r s => IH id r (p + 1) s) _
        (Hitems ltac:(by exists items; right))) as Hevs.
      destruct (Enum.procesar_items _ _ _ _ _ _ _ items) as [evs ok]; simpl in *.
      apply all_sourced_app; [apply listings_sourced | done].
Qed.

End WalkOrder.

(** C9 as amended.  The trace of a walk is one sequence of events, and for
    a walk that has returned it is in pre-order: the page requests of a
    node's listing come first; then, unless one of them raised, child by
    child in listing order, the child's own row, the whole trace of the
    child's subtree, and only then the next sibling; a child whose row
    cannot be appended is skipped together with its subtree.  Moreover every
    file row, wherever it stands in the trace, finished or not, comes after
    all the page requests of the listing that holds its item; that listing
    has ended without raising, on a page without cursor or on an answer
    other than 200, and the page holding the item was answered with status
    200. *)
Theorem emitted_in_preorder (G : Graph) (io : storage) (self : Enum.enumerator)
    (budget stack : nat) (drive_id item_id : option string) (ruta : string)
    (profundidad : Z) (archivos_csv : option string) :
  (snd (Enum.listar_archivos_recursivo G io self budget stack drive_id item_id ruta
          profundidad archivos_csv) = true ->
   preorder G io self budget drive_id archivos_csv profundidad item_id ruta
     (fst (Enum.listar_archivos_recursivo G io self budget stack drive_id item_id ruta
             profundidad archivos_csv)))
  /\
  (forall before e after,
     fst (Enum.listar_archivos_recursivo G io self budget stack drive_id item_id ruta
            profundidad archivos_csv) = before ++ e :: after ->
     sourced G budget drive_id before e).
Proof.
  split.
  - apply walk_preorder.
  - intros before e after Heq.
    apply (all_sourced_split G budget drive_id [] _
             (walk_sourced G io self budget drive_id archivos_csv stack item_id ruta
                profundidad []) before e after Heq).
Qed.

Lemma emitted_in_preorder_witness :
  preorder Samples.small_tree Samples.fotos_unwritable (Samples.depth 1) 5 (Some "b!x")
    (Some "archivos.csv") 0 None "/"
    (fst (Enum.listar_archivos_recursivo Samples.small_tree Samples.fotos_unwritable
            (Samples.depth 1) 5 7 (Some "b!x") None "/" 0 (Some "archivos.csv")))
  /\ sourced Samples.small_tree 5 (Some "b!x")
       [ListChildren 0 Samples.root_of_bx]
       (Append "archivos.csv"
          (FileRow (Enum.archivo_row (Some "b!x") "/" 0 Samples.informe))).
Proof.
  split.
  - refine (proj1 (emitted_in_preorder Samples.small_tree Samples.fotos_unwritable
              (Samples.depth 1) 5 7 (Some "b!x") None "/" 0 (Some "archivos.csv")) _).
    reflexivity.
  - refine (proj2 (emitted_in_preorder Samples.small_tree Samples.writable
              (Samples.depth 1) 5 7 (Some "b!x") None "/" 0 (Some "archivos.csv")) _ _ _ _).
    reflexivity.
Defined.

(** C9 as stated fails: the second page of the root listing is answered
    with status 503, so the listing has not succeeded, and yet the row of the
    child on its first page is written. *)
Lemma emitted_in_preorder_counterexample :
  stops_after (get_children Samples.listing_cut_short) refuses
    (Enum.children_url (Some "b!x") None) [[Samples.informe]]
  /\ Enum.listar_archivos_recursivo Samples.listing_cut_short Samples.writable
       (Samples.depth 1) 5 2 (Some "b!x") None "/" 0 (Some "archivos.csv")
     = ([ListChildren 0 Samples.root_of_bx;
         ListChildren 0 "https://next/2";
         Append "archivos.csv"
           (FileRow (Enum.archivo_row (Some "b!x") "/" 0 Samples.informe))],
        true).
Proof.
  split; [|reflexivity].
  apply (stops_later _ _ _ (Some [Samples.informe]) "https://next/2" []);
    [reflexivity | reflexivity |].
  apply stops_here. exists 503, None. split; [reflexivity | lia].
Qed.

(** ** The email encoded in a URL (ContainerResolver, by URL) *)

Section SplitJoin.
Context (c : ascii).

Local Abbreviation sep := (String c EmptyString).

Lemma split_no_sep s :
  Py.has_char c s = false -> Py.split_from sep O s = [s].
Proof.
  induction s as [|a s IH]; simpl; [done|].
  destruct (decide (a = c)) as [|Hne]; [done|]. intros Hs.
  destruct (decide (c = a)) as [|_]; [congruence|].
  by rewrite IH.
Qed.



End SplitJoin.

(** *** Cutting the segment out of the URL *)

Lemma append_nil_l (t : string) : EmptyString +:+ t = t.
Proof. done. Qed.

Lemma append_cons (a : ascii) (s t : string) : String a s +:+ t = String a (s +:+ t).
Proof. done. Qed.

Tactic Notation "push_append" := rewrite ?append_cons, ?append_nil_l.
Tactic Notation "push_append" ident(H) := rewrite ?append_cons, ?append_nil_l in H.

Lemma append_empty (s t : string) : s +:+ t = EmptyString -> t = EmptyString.
Proof. by destruct s. Qed.




Lemma rstrip_without (c : ascii) (s : string) :
  Py.has_char c s = false -> Py.rstrip c s = s.
Proof.
  induction s as [|a s IH]; simpl; [done|].
  destruct (decide (a = c)) as [|Hne]; [done|]. intros Hs. rewrite IH by done.
  by destruct s.
Qed.

Lemma rstrip_append (c : ascii) (s t : string) :
  t <> EmptyString -> Py.rstrip c t = t -> Py.rstrip c (s +:+ t) = s +:+ t.
Proof.
  intros Hne Ht. induction s as [|a s IH]; push_append; [done|]. simpl.
  rewrite IH. destruct (s +:+ t) eqn:Hst; [|done].
  by apply append_empty in Hst.
Qed.




Lemma startswith_self (p t : string) : Py.startswith p (p +:+ t) = true.
Proof.
  induction p as [|a p IH]; [by destruct t|].
  rewrite append_cons. simpl. by destruct (decide (a = a)).
Qed.












(** ** Containers of a principal (ContainerResolver, by identity) *)

Section Dedup.
Context {X Y K : Type} `{EqDecision K}
        (key : X -> K) (key_of : Y -> K) (mk : Y -> X)
        (key_mk : forall y, key (mk y) = key_of y).

Lemma add_fresh_fold l : forall acc,
  exists extra,
    foldl (add_fresh key key_of mk) acc l = acc ++ extra
    /\ Forall (fun x => exists y, y ∈ l /\ x = mk y) extra
    /\ (NoDup (key <$> acc) -> NoDup (key <$> (acc ++ extra)))
    /\ (forall k, k ∈ key <$> (acc ++ extra) <-> k ∈ key <$> acc \/ k ∈ key_of <$> l).
Proof.
  induction l as [|y l IH]; intros acc; simpl.
  - exists []. rewrite app_nil_r. split; [done|]. split; [done|]. split; [done|].
    intros k. split; [by left|]. intros [Hk|Hk]; [done|]. by apply elem_of_nil in Hk.
  - unfold add_fresh at 2. case_bool_decide as Hfresh.
    + destruct (IH (acc ++ [mk y])) as (extra & Hfold & Hmk & Hnodup & Hkeys).
      exists (mk y :: extra). rewrite Hfold, <- app_assoc. simpl.
      split; [done|]. split; [|split].
      * constructor.
        -- exists y. split; [apply list_elem_of_here|done].
        -- eapply Forall_impl; [exact Hmk|]. intros x (y' & Hy' & ->).
           exists y'. split; [by apply list_elem_of_further|done].
      * intros Hacc. rewrite <- app_assoc in Hnodup. apply Hnodup.
        rewrite fmap_app. apply NoDup_app. split; [done|]. split.
        -- intros k Hk Hk'. simpl in Hk'. apply list_elem_of_singleton in Hk'.
           rewrite key_mk in Hk'. by subst k.
        -- simpl. apply NoDup_singleton.
      * intros k. rewrite <- app_assoc in Hkeys. simpl in Hkeys. rewrite Hkeys.
        rewrite fmap_app, elem_of_app. simpl.
        rewrite list_elem_of_singleton, key_mk, elem_of_cons. tauto.
    + destruct (IH acc) as (extra & Hfold & Hmk & Hnodup & Hkeys).
      exists extra. split; [done|]. split; [|split; [done|]].
      * eapply Forall_impl; [exact Hmk|]. intros x (y' & Hy' & ->).
        exists y'. split; [by apply list_elem_of_further|done].
      * intros k. rewrite Hkeys, elem_of_cons.
        assert (key_of y ∈ key <$> acc) by (by destruct (decide (key_of y ∈ key <$> acc))).
        split; [tauto|]. intros [?|[->|?]]; auto.
Qed.

End Dedup.

Lemma enum_add_shared_fold (drives l : list drive) :
  foldl Enum.add_shared drives l
  = foldl (add_fresh d_id d_id (Enum.set_type "shared")) drives l.
Proof. done. Qed.

Lemma explorer_add_shared_fold (user_name : string) (avail : list Explorer.entry)
    (l : list drive) :
  foldl (Explorer.add_shared user_name) avail l
  = foldl (add_fresh Explorer.e_id d_id (Explorer.shared_entry user_name)) avail l.
Proof. done. Qed.

Lemma select_drive_same_lists (stdin : Explorer.keyboard) s : same_lists s (snd (Explorer.select_drive stdin s)).
Proof.
  unfold Explorer.select_drive, Explorer.bind, Explorer.get_available_drives. simpl.
  case_bool_decide; [|done].
  destruct stdin as [typed| |]; try done.
  destruct (_ && _); [|done].
  by destruct (Explorer.available_drives s !! _).
Qed.

Lemma choose_same_lists (stdin : Explorer.keyboard) on_empty s :
  (forall s0, same_lists s0 (snd (on_empty s0))) ->
  same_lists s (snd (Explorer.choose stdin on_empty s)).
Proof.
  intros Hempty. unfold Explorer.choose, Explorer.bind, Explorer.get_available_drives. simpl.
  destruct (Explorer.available_drives s) as [|d [|d' rest]] eqn:Havail.
  - apply Hempty.
  - done.
  - apply select_drive_same_lists.
Qed.

(** What [get_user_drives] leaves in [self.available_drives] when both
    lookups are answered with status 200 and a body. *)
Lemma get_user_drives_available G stdin user_id user_name s d data :
  get_drive G (Explorer.graph +:+ "/users/" +:+ user_id +:+ "/drive") = Status 200 (Some d) ->
  get_drives G (Explorer.graph +:+ "/users/" +:+ user_id +:+ "/drives")
    = Status 200 (Some data) ->
  Explorer.available_drives (snd (Explorer.get_user_drives G stdin user_id user_name s))
  = foldl (Explorer.add_shared user_name) [Explorer.personal_entry user_name d]
      (default [] (value data)).
Proof.
  intros Hdrive Hdrives.
  unfold Explorer.get_user_drives, Explorer.bind, Explorer.try_except, Explorer.http,
    Explorer.set_available_drives, Explorer.get_available_drives, Explorer.json,
    Explorer.ret. simpl.
  rewrite Hdrive. cbn -[Explorer.choose]. rewrite Hdrives. cbn -[Explorer.choose].
  by rewrite (proj1 (choose_same_lists stdin (fun s1 => (Explorer.Returns false, s1)) _
                       (fun s0 => conj eq_refl eq_refl))).
Qed.

(** C5.  When the default-container lookup and the full-list lookup of a
    principal are both answered with status 200 and a body, the resolved
    list starts with the default container tagged [personal]; every other
    element is a container of the full list tagged [shared]; no id occurs
    twice; and the ids are those of the default container and of the full
    list.  This holds for [obtener_todos_los_drives_usuario] and for the list
    [get_user_drives] leaves in [self.available_drives]. *)
Theorem containers_deduplicated (G : Graph) (user_id : option string) (user_email : string)
    (stdin : Explorer.keyboard) (uid user_name : string) (s : Explorer.explorer)
    (d : drive) (data : page drive) :
  (get_drive G (Enum.graph +:+ "/users/" +:+ Py.fmt user_id +:+ "/drive")
     = Status 200 (Some d) ->
   get_drives G (Enum.graph +:+ "/users/" +:+ Py.fmt user_id +:+ "/drives?$top=200")
     = Status 200 (Some data) ->
   exists others,
     snd (Enum.obtener_todos_los_drives_usuario G user_id user_email)
       = Enum.set_type "personal" d :: others
     /\ d_type (Enum.set_type "personal" d) = Some "personal"
     /\ Forall (fun x => d_type x = Some "shared"
                         /\ exists y, y ∈ default [] (value data)
                                      /\ x = Enum.set_type "shared" y) others
     /\ NoDup (d_id <$> (Enum.set_type "personal" d :: others))
     /\ (forall k, k ∈ d_id <$> (Enum.set_type "personal" d :: others)
                   <-> k = d_id d \/ k ∈ d_id <$> default [] (value data)))
  /\
  (get_drive G (Explorer.graph +:+ "/users/" +:+ uid +:+ "/drive") = Status 200 (Some d) ->
   get_drives G (Explorer.graph +:+ "/users/" +:+ uid +:+ "/drives")
     = Status 200 (Some data) ->
   exists others,
     Explorer.available_drives (snd (Explorer.get_user_drives G stdin uid user_name s))
       = Explorer.personal_entry user_name d :: others
     /\ Explorer.e_type (Explorer.personal_entry user_name d) = "personal"
     /\ Forall (fun x => Explorer.e_type x = "shared"
                         /\ exists y, y ∈ default [] (value data)
                                      /\ x = Explorer.shared_entry user_name y) others
     /\ NoDup (Explorer.e_id <$> (Explorer.personal_entry user_name d :: others))
     /\ (forall k, k ∈ Explorer.e_id <$> (Explorer.personal_entry user_name d :: others)
                   <-> k = d_id d \/ k ∈ d_id <$> default [] (value data))).
Proof.
  split.
  - intros Hdrive Hdrives. unfold Enum.obtener_todos_los_drives_usuario.
    rewrite Hdrive, Hdrives. simpl. rewrite enum_add_shared_fold.
    destruct (add_fresh_fold d_id d_id (Enum.set_type "shared") (fun _ => eq_refl)
                (default [] (value data)) [Enum.set_type "personal" d])
      as (others & -> & Hmk & Hnodup & Hkeys).
    exists others. split; [done|]. split; [done|]. split; [|split].
    + eapply Forall_impl; [exact Hmk|]. intros x (y & Hy & ->). split; [done|by exists y].
    + apply Hnodup. simpl. apply NoDup_singleton.
    + intros k. rewrite (Hkeys k). simpl. by rewrite list_elem_of_singleton.
  - intros Hdrive Hdrives.
    rewrite (get_user_drives_available G stdin uid user_name s d data Hdrive Hdrives).
    rewrite explorer_add_shared_fold.
    destruct (add_fresh_fold Explorer.e_id d_id (Explorer.shared_entry user_name)
                (fun _ => eq_refl) (default [] (value data))
                [Explorer.personal_entry user_name d])
      as (others & -> & Hmk & Hnodup & Hkeys).
    exists others. split; [done|]. split; [done|]. split; [|split].
    + eapply Forall_impl; [exact Hmk|]. intros x (y & Hy & ->). split; [done|by exists y].
    + apply Hnodup. simpl. apply NoDup_singleton.
    + intros k. rewrite (Hkeys k). simpl. by rewrite list_elem_of_singleton.
Qed.

Lemma containers_deduplicated_witness :
  exists others,
    snd (Enum.obtener_todos_los_drives_usuario Samples.overlapping (Some "u1") "ana@contoso.com")
      = Enum.set_type "personal" Samples.drive_a :: others
    /\ d_type (Enum.set_type "personal" Samples.drive_a) = Some "personal"
    /\ Forall (fun x => d_type x = Some "shared"
                        /\ exists y, y ∈ [Samples.drive_a; Samples.drive_b; Samples.drive_b]
                                     /\ x = Enum.set_type "shared" y) others
    /\ NoDup (d_id <$> (Enum.set_type "personal" Samples.drive_a :: others))
    /\ (forall k, k ∈ d_id <$> (Enum.set_type "personal" Samples.drive_a :: others)
                  <-> k = Some "dA"
                      \/ k ∈ d_id <$> [Samples.drive_a; Samples.drive_b; Samples.drive_b]).
Proof.
  exact (proj1 (containers_deduplicated Samples.overlapping (Some "u1") "ana@contoso.com"
                  Explorer.KeyboardInterrupt "u1" "Ana" Explorer.fresh Samples.drive_a
                  (Page (Some [Samples.drive_a; Samples.drive_b; Samples.drive_b]) None))
           eq_refl eq_refl).
Defined.

(** ** Resolution from a URL (ContainerResolver, fallbacks) *)

Section Resolution.
Context (G : Graph) (stdin : Explorer.keyboard).

(** The loop over the sites found never raises, keeps the drives found so
    far, touches nothing but the request log, and only extends it. *)
Lemma search_sites_returns sites : forall drives s,
  exists found more,
    Explorer.search_sites G sites drives s
    = (Explorer.Returns (drives ++ found),
       {| Explorer.drive_id := Explorer.drive_id s;
          Explorer.available_drives := Explorer.available_drives s;
          Explorer.requests := Explorer.requests s ++ more |}).
Proof.
  induction sites as [|st sites IH]; intros drives s; simpl.
  - exists [], []. rewrite !app_nil_r. by destruct s.
  - unfold Explorer.bind, Explorer.try_except, Explorer.http at 1.
    set (u := Explorer.graph +:+ "/sites/" +:+ Py.fmt (s_id st) +:+ "/drives").
    destruct (get_drives G u) as [|code [data|]]; simpl.
    + destruct (IH drives (Explorer.sent s u)) as (found & more & ->).
      exists found, (u :: more). simpl. by rewrite <- app_assoc.
    + destruct (code =? 200); simpl.
      * destruct (IH (drives ++ default [] (value data)) (Explorer.sent s u))
          as (found & more & ->).
        exists (default [] (value data) ++ found), (u :: more). simpl.
        by rewrite <- !app_assoc.
      * destruct (IH drives (Explorer.sent s u)) as (found & more & ->).
        exists found, (u :: more). simpl. by rewrite <- app_assoc.
    + destruct (code =? 200); simpl.
      * destruct (IH drives (Explorer.sent s u)) as (found & more & ->).
        exists found, (u :: more). simpl. by rewrite <- app_assoc.
      * destruct (IH drives (Explorer.sent s u)) as (found & more & ->).
        exists found, (u :: more). simpl. by rewrite <- app_assoc.
Qed.

(** The global search never raises; its first request is the tenant-wide
    site search for the email. *)
Lemma search_all_drives_returns email s :
  exists drives more,
    Explorer.search_all_drives_by_email G email s
    = (Explorer.Returns drives,
       {| Explorer.drive_id := Explorer.drive_id s;
          Explorer.available_drives := Explorer.available_drives s;
          Explorer.requests := Explorer.requests s ++ Explorer.search_url email :: more |}).
Proof.
  unfold Explorer.search_all_drives_by_email, Explorer.bind, Explorer.try_except,
    Explorer.http.
  destruct (get_sites G (Explorer.search_url email)) as [|code [data|]]; simpl.
  - by exists [], [].
  - destruct (code =? 200); simpl; [|by exists [], []].
    destruct (search_sites_returns (default [] (value data)) []
                (Explorer.sent s (Explorer.search_url email))) as (found & more & ->).
    exists found, more. simpl. by rewrite <- app_assoc.
  - destruct (code =? 200); simpl; by exists [], [].
Qed.

Lemma busqueda_normal_miss email s :
  lookup_misses G email ->
  Explorer.busqueda_normal G stdin email s
  = (Explorer.Returns None, Explorer.sent s (Explorer.users_url email)).
Proof.
  unfold Explorer.busqueda_normal, Explorer.bind, Explorer.http.
  intros [(data & -> & Hnone) | (code & body & -> & Hcode)]; simpl.
  - by rewrite Hnone.
  - by destruct (Z.eqb_spec code 200).
Qed.

Lemma get_user_drives_requests user_id user_name s :
  Explorer.requests (snd (Explorer.get_user_drives G stdin user_id user_name s))
  = Explorer.requests s
      ++ [Explorer.graph +:+ "/users/" +:+ user_id +:+ "/drive";
          Explorer.graph +:+ "/users/" +:+ user_id +:+ "/drives"].
Proof.
  unfold Explorer.get_user_drives, Explorer.bind, Explorer.try_except, Explorer.http,
    Explorer.set_available_drives, Explorer.get_available_drives, Explorer.json,
    Explorer.ret. cbn -[Explorer.choose].
  destruct (get_drive G _) as [|c1 [d|]]; cbn -[Explorer.choose];
    try destruct (c1 =? 200); cbn -[Explorer.choose];
    destruct (get_drives G _) as [|c2 [data|]]; cbn -[Explorer.choose];
    try destruct (c2 =? 200); cbn -[Explorer.choose];
    rewrite (proj2 (choose_same_lists stdin (fun s1 => (Explorer.Returns false, s1)) _
                      (fun s0 => conj eq_refl eq_refl)));
    cbn; by rewrite <- app_assoc.
Qed.

Lemma busqueda_global_eq email s drives s1 :
  Explorer.search_all_drives_by_email G email s = (Explorer.Returns drives, s1) ->
  Explorer.busqueda_global G stdin email s
  = match drives with
    | [] => (Explorer.Returns false, s1)
    | [d] =>
        (Explorer.Returns true,
         {| Explorer.drive_id := d_id d;
            Explorer.available_drives := [Explorer.huerfano_entry email d];
            Explorer.requests := Explorer.requests s1 |})
    | _ =>
        Explorer.select_drive stdin
          {| Explorer.drive_id := Explorer.drive_id s1;
             Explorer.available_drives := Explorer.huerfano_entry email <$> drives;
             Explorer.requests := Explorer.requests s1 |}
    end.
Proof.
  intros Hsearch. unfold Explorer.busqueda_global, Explorer.bind at 1.
  rewrite Hsearch. by destruct drives as [|d1 [|d2 rest]].
Qed.

(** [get_drives_from_url] when the identity lookup misses. *)
Lemma resolution_by_search onedrive_url email s :
  email_of_url onedrive_url = Some email ->
  lookup_misses G email ->
  exists drives more,
    Explorer.search_all_drives_by_email G email (Explorer.sent s (Explorer.users_url email))
    = (Explorer.Returns drives, after_search s email more (Explorer.available_drives s))
    /\ Explorer.get_drives_from_url G stdin onedrive_url s
       = match drives with
         | [] =>
             (Explorer.Returns false,
              after_search s email more (Explorer.available_drives s))
         | [d] =>
             (Explorer.Returns true,
              {| Explorer.drive_id := d_id d;
                 Explorer.available_drives := [Explorer.huerfano_entry email d];
                 Explorer.requests :=
                   Explorer.requests s
                     ++ Explorer.users_url email :: Explorer.search_url email :: more |})
         | _ =>
             Explorer.try_except (Explorer.select_drive stdin) (Explorer.ret false)
               (after_search s email more (Explorer.huerfano_entry email <$> drives))
         end.
Proof.
  intros Hemail Hmiss.
  destruct (search_all_drives_returns email (Explorer.sent s (Explorer.users_url email)))
    as (drives & more & Hsearch).
  assert (Hstate : {| Explorer.drive_id := Explorer.drive_id (Explorer.sent s (Explorer.users_url email));
                      Explorer.available_drives :=
                        Explorer.available_drives (Explorer.sent s (Explorer.users_url email));
                      Explorer.requests :=
                        Explorer.requests (Explorer.sent s (Explorer.users_url email))
                          ++ Explorer.search_url email :: more |}
                   = after_search s email more (Explorer.available_drives s)).
  { unfold after_search. simpl. by rewrite <- app_assoc. }
  rewrite Hstate in Hsearch.
  exists drives, more. split; [done|].
  unfold Explorer.get_drives_from_url. rewrite Hemail.
  unfold Explorer.try_except, Explorer.bind at 1.
  rewrite busqueda_normal_miss by done.
  rewrite (busqueda_global_eq email _ drives _ Hsearch).
  by destruct drives as [|d1 [|d2 rest]].
Qed.

(** Whatever is typed at the prompt, the menu leaves the lists alone. *)
Lemma select_or_false_same_lists s :
  same_lists s (snd (Explorer.try_except (Explorer.select_drive stdin) (Explorer.ret false) s)).
Proof.
  unfold Explorer.try_except.
  pose proof (select_drive_same_lists stdin s) as Hsame.
  by destruct (Explorer.select_drive stdin s) as [[b|] s'].
Qed.

(** [get_drives_from_url] returns a boolean; it never raises. *)
Lemma get_drives_from_url_returns onedrive_url s :
  exists b, fst (Explorer.get_drives_from_url G stdin onedrive_url s) = Explorer.Returns b.
Proof.
  unfold Explorer.get_drives_from_url, Explorer.try_except.
  match goal with |- context [let (o, s') := ?run in _] => destruct run as [[b|] s'] end;
    by eexists.
Qed.

(** [get_drives_from_url] when the identity lookup finds a user. *)
Lemma resolution_by_identity onedrive_url email s data u rest user_id :
  email_of_url onedrive_url = Some email ->
  get_users G (Explorer.users_url email) = Status 200 (Some data) ->
  default [] (value data) = u :: rest ->
  u_id u = Some user_id ->
  Explorer.get_drives_from_url G stdin onedrive_url s
  = Explorer.try_except
      (Explorer.get_user_drives G stdin user_id (default email (u_displayName u)))
      (Explorer.ret false) (Explorer.sent s (Explorer.users_url email)).
Proof.
  intros Hemail Hget Hvalue Hid.
  unfold Explorer.get_drives_from_url. rewrite Hemail.
  unfold Explorer.try_except, Explorer.bind at 1, Explorer.busqueda_normal,
    Explorer.bind at 1, Explorer.http.
  rewrite Hget. cbn -[from_option Explorer.get_user_drives]. rewrite Hvalue, Hid.
  unfold Explorer.bind.
  by destruct (Explorer.get_user_drives G stdin user_id _ _) as [[b|] s'].
Qed.

End Resolution.

(** C7.  When the URL encodes an email and the identity lookup is answered
    with status 200 and no user, or with status 403, the tenant-wide search
    is the next request made, and when it returns containers the list of
    available drives is exactly those containers, each tagged [huerfano]. *)
Theorem fallback_after_miss (G : Graph) (stdin : Explorer.keyboard) (onedrive_url email : string)
    (s : Explorer.explorer) :
  email_of_url onedrive_url = Some email ->
  ((exists data, get_users G (Explorer.users_url email) = Status 200 (Some data)
                 /\ default [] (value data) = [])
   \/ (exists body, get_users G (Explorer.users_url email) = Status 403 body)) ->
  exists drives more,
    fst (Explorer.search_all_drives_by_email G email
           (Explorer.sent s (Explorer.users_url email))) = Explorer.Returns drives
    /\ Explorer.requests (snd (Explorer.get_drives_from_url G stdin onedrive_url s))
       = Explorer.requests s ++ Explorer.users_url email :: Explorer.search_url email :: more
    /\ (drives <> [] ->
        Explorer.available_drives (snd (Explorer.get_drives_from_url G stdin onedrive_url s))
        = Explorer.huerfano_entry email <$> drives)
    /\ Forall (fun e => Explorer.e_type e = "huerfano") (Explorer.huerfano_entry email <$> drives)
    /\ Explorer.e_id <$> (Explorer.huerfano_entry email <$> drives) = d_id <$> drives.
Proof.
  intros Hemail Hmiss.
  assert (Hmiss' : lookup_misses G email).
  { destruct Hmiss as [Hzero | (body & Hget)]; [by left|].
    right. exists 403, body. split; [done|lia]. }
  destruct (resolution_by_search G stdin onedrive_url email s Hemail Hmiss')
    as (drives & more & Hsearch & Hrun).
  exists drives, more. rewrite Hsearch. split; [done|].
  split; [|split; [|split]].
  - rewrite Hrun. destruct drives as [|d1 [|d2 rest]]; try done.
    by rewrite (proj2 (select_or_false_same_lists stdin _)).
  - intros Hne. rewrite Hrun. destruct drives as [|d1 [|d2 rest]]; try done.
    by rewrite (proj1 (select_or_false_same_lists stdin _)).
  - apply Forall_fmap, Forall_true. done.
  - rewrite <- list_fmap_compose. done.
Qed.

Lemma fallback_after_miss_witness :
  exists drives more,
    fst (Explorer.search_all_drives_by_email Samples.deleted_user "ana@contoso.com"
           (Explorer.sent Explorer.fresh (Explorer.users_url "ana@contoso.com")))
      = Explorer.Returns drives
    /\ Explorer.requests
         (snd (Explorer.get_drives_from_url Samples.deleted_user (Explorer.Line "2")
                 Samples.url_of_ana Explorer.fresh))
       = Explorer.requests Explorer.fresh
           ++ Explorer.users_url "ana@contoso.com" :: Explorer.search_url "ana@contoso.com"
           :: more
    /\ (drives <> [] ->
        Explorer.available_drives
          (snd (Explorer.get_drives_from_url Samples.deleted_user (Explorer.Line "2")
                  Samples.url_of_ana Explorer.fresh))
        = Explorer.huerfano_entry "ana@contoso.com" <$> drives)
    /\ Forall (fun e => Explorer.e_type e = "huerfano")
         (Explorer.huerfano_entry "ana@contoso.com" <$> drives)
    /\ Explorer.e_id <$> (Explorer.huerfano_entry "ana@contoso.com" <$> drives)
       = d_id <$> drives.
Proof.
  refine (fallback_after_miss Samples.deleted_user (Explorer.Line "2") Samples.url_of_ana
            "ana@contoso.com" Explorer.fresh _ _).
  - reflexivity.
  - left. exists (Page (Some []) None). split; reflexivity.
Defined.

(** C8 as amended.  Resolution from a URL never raises, and it reports
    failure in these ways.  When the URL encodes no email, no request is
    made.  When the identity lookup is answered and finds no user (status
    200 with no match, or another status), failure comes only after the
    tenant-wide search was attempted, and that search returned no container,
    or returned several and no valid choice was made at the prompt.  When
    the lookup finds a user, the outcome is that of [get_user_drives] (a
    failure if it raises) and the tenant-wide search is not attempted. *)
Theorem resolution_failure (G : Graph) (stdin : Explorer.keyboard) (onedrive_url : string)
    (s : Explorer.explorer) :
  (exists b, fst (Explorer.get_drives_from_url G stdin onedrive_url s) = Explorer.Returns b)
  /\
  (email_of_url onedrive_url = None ->
   Explorer.get_drives_from_url G stdin onedrive_url s = (Explorer.Returns false, s))
  /\
  (forall email,
     email_of_url onedrive_url = Some email ->
     lookup_misses G email ->
     fst (Explorer.get_drives_from_url G stdin onedrive_url s) = Explorer.Returns false ->
     exists drives more,
       fst (Explorer.search_all_drives_by_email G email
              (Explorer.sent s (Explorer.users_url email))) = Explorer.Returns drives
       /\ Explorer.requests (snd (Explorer.get_drives_from_url G stdin onedrive_url s))
          = Explorer.requests s ++ Explorer.users_url email :: Explorer.search_url email :: more
       /\ (drives = []
           \/ ((2 <= length drives)%nat
               /\ fst (Explorer.select_drive stdin
                         (after_search s email more (Explorer.huerfano_entry email <$> drives)))
                  <> Explorer.Returns true)))
  /\
  (forall email data u rest user_id,
     email_of_url onedrive_url = Some email ->
     get_users G (Explorer.users_url email) = Status 200 (Some data) ->
     default [] (value data) = u :: rest ->
     u_id u = Some user_id ->
     Explorer.get_drives_from_url G stdin onedrive_url s
     = Explorer.try_except
         (Explorer.get_user_drives G stdin user_id (default email (u_displayName u)))
         (Explorer.ret false) (Explorer.sent s (Explorer.users_url email))
     /\ Explorer.requests (snd (Explorer.get_drives_from_url G stdin onedrive_url s))
        = Explorer.requests s
            ++ [Explorer.users_url email;
                Explorer.graph +:+ "/users/" +:+ user_id +:+ "/drive";
                Explorer.graph +:+ "/users/" +:+ user_id +:+ "/drives"]).
Proof.
  split; [apply get_drives_from_url_returns|]. split; [|split].
  - intros Hnone. unfold Explorer.get_drives_from_url. by rewrite Hnone.
  - intros email Hemail Hmiss Hfalse.
    destruct (resolution_by_search G stdin onedrive_url email s Hemail Hmiss)
      as (drives & more & Hsearch & Hrun).
    exists drives, more. rewrite Hsearch. split; [done|].
    rewrite Hrun in Hfalse |- *. destruct drives as [|d1 [|d2 rest]].
    + split; [done|by left].
    + done.
    + split; [by rewrite (proj2 (select_or_false_same_lists stdin _))|].
      right. split; [simpl; lia|].
      intros Htrue. unfold Explorer.try_except in Hfalse.
      destruct (Explorer.select_drive stdin _) as [[b|] s']; simpl in *; congruence.
  - intros email data u rest user_id Hemail Hget Hvalue Hid.
    rewrite (resolution_by_identity G stdin onedrive_url email s data u rest user_id)
      by done.
    split; [done|].
    pose proof (get_user_drives_requests G stdin user_id (default email (u_displayName u))
                  (Explorer.sent s (Explorer.users_url email))) as Hreqs.
    unfold Explorer.try_except.
    destruct (Explorer.get_user_drives G stdin user_id _ _) as [[b|] s']; simpl in *;
      rewrite Hreqs; by rewrite <- app_assoc.
Qed.

Lemma resolution_failure_witness :
  exists drives more,
    fst (Explorer.search_all_drives_by_email Samples.deleted_user "ana@contoso.com"
           (Explorer.sent Explorer.fresh (Explorer.users_url "ana@contoso.com")))
      = Explorer.Returns drives
    /\ Explorer.requests
         (snd (Explorer.get_drives_from_url Samples.deleted_user (Explorer.Line "x")
                 Samples.url_of_ana Explorer.fresh))
       = Explorer.requests Explorer.fresh
           ++ Explorer.users_url "ana@contoso.com" :: Explorer.search_url "ana@contoso.com"
           :: more
    /\ (drives = []
        \/ ((2 <= length drives)%nat
            /\ fst (Explorer.select_drive (Explorer.Line "x")
                      (after_search Explorer.fresh "ana@contoso.com" more
                         (Explorer.huerfano_entry "ana@contoso.com" <$> drives)))
               <> Explorer.Returns true)).
Proof.
  refine (proj1 (proj2 (proj2 (resolution_failure Samples.deleted_user (Explorer.Line "x")
            Samples.url_of_ana Explorer.fresh))) "ana@contoso.com" _ _ _).
  - reflexivity.
  - left. exists (Page (Some []) None). split; reflexivity.
  - reflexivity.
Defined.

(** C8 as stated fails: the identity is found, none of its drives can be
    read, and resolution reports failure although the tenant-wide search was
    never attempted; attempted, it would have returned a container. *)
Lemma resolution_failure_counterexample :
  fst (Explorer.get_drives_from_url Samples.found_without_drives (Explorer.Line "1")
         Samples.url_of_ana Explorer.fresh) = Explorer.Returns false
  /\ ~ (Explorer.search_url "ana@contoso.com"
         ∈ Explorer.requests
             (snd (Explorer.get_drives_from_url Samples.found_without_drives
                     (Explorer.Line "1") Samples.url_of_ana Explorer.fresh)))
  /\ fst (Explorer.search_all_drives_by_email Samples.found_without_drives "ana@contoso.com"
            Explorer.fresh) = Explorer.Returns [Samples.drive_b].
Proof.
  split; [reflexivity|]. split; [|reflexivity].
  apply (bool_decide_unpack _). by vm_compute.
Qed.

(** ** Authentication failure (Orchestrator) *)

Lemma get_access_token_trace (G : Graph) (self : Enum.enumerator) (st : Enum.session) :
  fst (Enum.get_access_token G self st)
  = [Post ("https://login.microsoftonline.com/" +:+ Enum.tenant_id self +:+ "/oauth2/v2.0/token")].
Proof. done. Qed.

(** C2 as amended.  In a run whose authentication fails, the three output
    files have been created before the token request, each holding its
    header row and nothing else; the token request is the only request made;
    every other file is left as it was; the method returns and the process
    ends with status 0. *)
Theorem auth_failure_run (G : Graph) (io : storage) (self : Enum.enumerator) (budget : nat)
    (schedule_u schedule_s : list nat) (timestamp : string)
    (disk : gmap string (list csv_line)) :
  fst (snd (Enum.get_access_token G self
              {| Enum.access_token := None; Enum.token_expires := None |})) = false ->
  Enum.exit_status (Enum.main G io self budget schedule_u schedule_s timestamp disk) = Some 0
  /\ Enum.trace (Enum.main G io self budget schedule_u schedule_s timestamp disk)
     = [Create ("usuarios_" +:+ timestamp +:+ ".csv") Enum.usuarios_headers;
        Create ("sites_" +:+ timestamp +:+ ".csv") Enum.sites_headers;
        Create ("archivos_" +:+ timestamp +:+ ".csv") Enum.archivos_headers;
        Post ("https://login.microsoftonline.com/" +:+ Enum.tenant_id self
                +:+ "/oauth2/v2.0/token")]
  /\ Enum.files (Enum.main G io self budget schedule_u schedule_s timestamp disk)
     = <["archivos_" +:+ timestamp +:+ ".csv" := [Header Enum.archivos_headers]]>
         (<["sites_" +:+ timestamp +:+ ".csv" := [Header Enum.sites_headers]]>
            (<["usuarios_" +:+ timestamp +:+ ".csv" := [Header Enum.usuarios_headers]]> disk))
  /\ Enum.files (Enum.main G io self budget schedule_u schedule_s timestamp disk)
       !! ("usuarios_" +:+ timestamp +:+ ".csv")
     = Some [Header Enum.usuarios_headers]
  /\ Enum.files (Enum.main G io self budget schedule_u schedule_s timestamp disk)
       !! ("sites_" +:+ timestamp +:+ ".csv")
     = Some [Header Enum.sites_headers]
  /\ Enum.files (Enum.main G io self budget schedule_u schedule_s timestamp disk)
       !! ("archivos_" +:+ timestamp +:+ ".csv")
     = Some [Header Enum.archivos_headers].
Proof.
  intros Hfail.
  pose proof (get_access_token_trace G self
                {| Enum.access_token := None; Enum.token_expires := None |}) as Htrace.
  unfold Enum.main, Enum.generar_reporte_completo.
  destruct (Enum.get_access_token G self _) as [auth [ok st]]. simpl in Hfail, Htrace.
  subst ok auth. simpl.
  split; [done|]. split; [done|]. split; [done|].
  split; [|split].
  - rewrite lookup_insert_ne by done. rewrite lookup_insert_ne by done.
    apply lookup_insert_eq.
  - rewrite lookup_insert_ne by done. apply lookup_insert_eq.
  - apply lookup_insert_eq.
Qed.

Lemma auth_failure_run_witness :
  Enum.exit_status (Enum.main Samples.silent Samples.writable (Samples.depth 2) 5 [] []
                      "20240101_120000" ∅) = Some 0.
Proof.
  refine (proj1 (auth_failure_run Samples.silent Samples.writable (Samples.depth 2) 5 [] []
                   "20240101_120000" ∅ _)).
  reflexivity.
Defined.

(** C2 as stated fails: the token request raises, and the run ends with
    status 0 and the users file on disk. *)
Lemma auth_failure_run_counterexample :
  fst (snd (Enum.get_access_token Samples.silent (Samples.depth 2)
              {| Enum.access_token := None; Enum.token_expires := None |})) = false
  /\ Enum.exit_status (Enum.main Samples.silent Samples.writable (Samples.depth 2) 5 [] []
                         "20240101_120000" ∅)
     = Some 0
  /\ Enum.files (Enum.main Samples.silent Samples.writable (Samples.depth 2) 5 [] []
                   "20240101_120000" ∅)
       !! "usuarios_20240101_120000.csv" = Some [Header Enum.usuarios_headers]
  /\ ~ (Enum.exit_status (Enum.main Samples.silent Samples.writable (Samples.depth 2) 5 [] []
                            "20240101_120000" ∅)
          <> Some 0
        /\ Enum.files (Enum.main Samples.silent Samples.writable (Samples.depth 2) 5 [] []
                         "20240101_120000" ∅) = ∅).
Proof.
  split; [reflexivity|]. split; [reflexivity|]. split.
  - unfold Enum.main. simpl.
    rewrite lookup_insert_ne by done. rewrite lookup_insert_ne by done.
    apply lookup_insert_eq.
  - intros [Hnonzero _]. by apply Hnonzero.
Qed.

(** * Checks on concrete inputs *)

Example split_overlapping :
  Py.split "/personal/" "x/personal/personal/a_b_c" = ["x"; "personal/a_b_c"].
Proof. reflexivity. Qed.

Example split_adjacent :
  Py.split "/personal/" "a/personal//personal/b" = ["a"; ""; "b"].
Proof. reflexivity. Qed.

Example split_empty_parts : Py.split "_" "a__b_" = ["a"; ""; "b"; ""].
Proof. reflexivity. Qed.

Example rstrip_slashes : Py.rstrip "/" "a/b//" = "a/b" /\ Py.rstrip "/" "//" = "".
Proof. split; reflexivity. Qed.

Example strip_and_int :
  Py.strip "  12 " = "12" /\ Py.isdigit "12" = true /\ Py.int "012" = 12%nat
  /\ Py.isdigit "" = false /\ Py.isdigit "1a" = false.
Proof. repeat split; reflexivity. Qed.

Example url_without_personal :
  email_of_url "https://contoso.sharepoint.com/sites/ventas" = None.
Proof. reflexivity. Qed.

Example url_with_two_parts :
  email_of_url "https://contoso-my.sharepoint.com/personal/contoso_com" = None.
Proof. reflexivity. Qed.

Example url_with_folder_tail :
  email_of_url "https://contoso-my.sharepoint.com/personal/ana_contoso_com/Documents"
  = Some "ana@contoso.com/Documents".
Proof. reflexivity. Qed.

Example walk_depth_0 :
  f_ruta <$> rows_of (fst (Enum.listar_archivos_recursivo Samples.small_tree Samples.writable
                             (Samples.depth 0) 5 1 (Some "b!x") None "/" 0
                             (Some "archivos.csv")))
  = ["/informe.docx"; "/Fotos"].
Proof. reflexivity. Qed.

Example walk_depth_1 :
  (fun r => (f_ruta r, f_tipo r, f_profundidad r))
    <$> rows_of (fst (Enum.listar_archivos_recursivo Samples.small_tree Samples.writable
                        (Samples.depth 1) 5 2 (Some "b!x") None "/" 0
                        (Some "archivos.csv")))
  = [("/informe.docx", "archivo", 0); ("/Fotos", "carpeta", 0);
     ("/Fotos/playa.jpg", "archivo", 1); ("/Fotos/Viajes", "carpeta", 1)].
Proof. reflexivity. Qed.

Example walk_depth_1_listings :
  listing_depths (fst (Enum.listar_archivos_recursivo Samples.small_tree Samples.writable
                         (Samples.depth 1) 5 2 (Some "b!x") None "/" 0
                         (Some "archivos.csv")))
  = [0; 1].
Proof. reflexivity. Qed.

Example walk_short_of_stack :
  snd (Enum.listar_archivos_recursivo Samples.small_tree Samples.writable (Samples.depth 1)
         5 1 (Some "b!x") None "/" 0 (Some "archivos.csv")) = false.
Proof. reflexivity. Qed.

Example walk_listing_raises :
  Enum.listar_archivos_recursivo Samples.second_page_timeout Samples.writable
    (Samples.depth 1) 5 2 (Some "b!x") None "/" 0 (Some "archivos.csv")
  = ([ListChildren 0 Samples.root_of_bx; ListChildren 0 "https://next/2"], true).
Proof. reflexivity. Qed.

(** The row of the folder [Fotos] cannot be appended: the folder is not
    walked, and the walk returns with the row of [informe] alone. *)
Example walk_skips_unwritable :
  Enum.listar_archivos_recursivo Samples.small_tree Samples.fotos_unwritable
    (Samples.depth 1) 5 2 (Some "b!x") None "/" 0 (Some "archivos.csv")
  = ([ListChildren 0 Samples.root_of_bx;
      Append "archivos.csv"
        (FileRow (Enum.archivo_row (Some "b!x") "/" 0 Samples.informe))],
     true).
Proof. reflexivity. Qed.

(** Without a file to write to, the walk appends nothing and still goes
    down into the folders. *)
Example walk_without_file :
  fst (Enum.listar_archivos_recursivo Samples.small_tree Samples.fotos_unwritable
         (Samples.depth 1) 5 2 (Some "b!x") None "/" 0 None)
  = [ListChildren 0 Samples.root_of_bx; ListChildren 1 (Samples.children_of "i2")].
Proof. reflexivity. Qed.

Example division_overflow :
  Py.truediv (2 ^ 1024 - 2 ^ 970) 1 = None
  /\ Py.truediv (2 ^ 1024 - 2 ^ 970 - 1) 1 = Some (Py.Quotient (2 ^ 1024 - 2 ^ 970 - 1) 1)
  /\ Py.truediv (- (2 ^ 1024)) 1 = None
  /\ Py.truediv (10 ^ 400) (10 ^ 399) = Some (Py.Quotient (10 ^ 400) (10 ^ 399))
  /\ Py.truediv 1 0 = None.
Proof. split; [|split; [|split; [|split]]]; vm_compute; reflexivity. Qed.

Example quota_of_a_drive :
  Enum.quota_columns
    (Drive None None None None (Some (Quota (Some 2048) (Some 1024))) None)
  = Some (Py.Round2 (Py.Quotient 1024 (1024 ^ 3)),
          Py.Round2 (Py.Quotient 2048 (1024 ^ 3)),
          Py.Round2 (Py.Times (Py.Quotient 1024 2048) 100))
  /\ Enum.quota_columns Samples.drive_a = Some (Py.Int 0, Py.Int 0, Py.Int 0)
  /\ Enum.quota_columns Samples.drive_huge = None.
Proof. split; [|split]; vm_compute; reflexivity. Qed.

Example users_in_two_pages :
  Enum.listar_todos_los_usuarios Samples.two_pages 5
  = ([Get Samples.users_first; Get "https://next/2"],
     Some [Samples.ana; Samples.luis; Samples.eva]).
Proof. reflexivity. Qed.

Example users_budget_spent :
  snd (Enum.listar_todos_los_usuarios Samples.two_pages 1) = None.
Proof. reflexivity. Qed.

Example deleted_user_choice_2 :
  fst (Explorer.get_drives_from_url Samples.deleted_user (Explorer.Line " 2 ")
         Samples.url_of_ana Explorer.fresh) = Explorer.Returns true
  /\ Explorer.drive_id
       (snd (Explorer.get_drives_from_url Samples.deleted_user (Explorer.Line " 2 ")
               Samples.url_of_ana Explorer.fresh)) = Some "dB".
Proof. split; reflexivity. Qed.

Example deleted_user_enter :
  Explorer.drive_id
    (snd (Explorer.get_drives_from_url Samples.deleted_user (Explorer.Line "")
            Samples.url_of_ana Explorer.fresh)) = Some "dA".
Proof. reflexivity. Qed.

Example deleted_user_interrupt :
  fst (Explorer.get_drives_from_url Samples.deleted_user Explorer.KeyboardInterrupt
         Samples.url_of_ana Explorer.fresh) = Explorer.Returns false.
Proof. reflexivity. Qed.

Example overlapping_explorer :
  (fun e => (Explorer.e_id e, Explorer.e_type e))
    <$> Explorer.available_drives
          (snd (Explorer.get_user_drives Samples.overlapping Explorer.KeyboardInterrupt
                  "u1" "Ana" Explorer.fresh))
  = [(Some "dA", "personal"); (Some "dB", "shared")].
Proof. reflexivity. Qed.

(** * Further properties of the enumerator *)

(** ** Rows of a walk *)

Lemma append_assoc (s t u : string) : (s +:+ t) +:+ u = s +:+ t +:+ u.
Proof. induction s as [|a s IH]; [done|]. rewrite !append_cons. by rewrite IH. Qed.

Lemma startswith_append (p s t : string) :
  Py.startswith p s = true -> Py.startswith p (s +:+ t) = true.
Proof.
  revert s. induction p as [|a p IH]; intros [|b s]; rewrite ?append_cons; simpl; try done.
  destruct (decide (a = b)); [apply IH|done].
Qed.

(** Stripping after an append: the right part alone when it keeps
    something, the left part otherwise. *)
Lemma rstrip_append_cases (c : ascii) (s t : string) :
  Py.rstrip c (s +:+ t)
  = match Py.rstrip c t with
    | EmptyString => Py.rstrip c s
    | kept => s +:+ kept
    end.
Proof.
  induction s as [|a s IH]; rewrite ?append_nil_l, ?append_cons.
  - by destruct (Py.rstrip c t).
  - simpl. rewrite IH. destruct (Py.rstrip c t) as [|x kept]; [done|].
    rewrite append_cons.
    destruct (s +:+ String x kept) eqn:Hst; [|done].
    by apply append_empty in Hst.
Qed.

Lemma append_nil_r (s : string) : s +:+ EmptyString = s.
Proof. induction s as [|a s IH]; [done|]. rewrite append_cons. by rewrite IH. Qed.

Lemma rstrip_idempotent (c : ascii) (s : string) :
  Py.rstrip c (Py.rstrip c s) = Py.rstrip c s.
Proof.
  induction s as [|a s IH]; simpl; [done|].
  destruct (Py.rstrip c s) as [|x kept] eqn:Hkept.
  - destruct (decide (a = c)) as [|Hne]; [done|].
    simpl. by destruct (decide (a = c)).
  - change (Py.rstrip c (String a (String x kept)))
      with (match Py.rstrip c (String x kept) with
            | EmptyString => if decide (a = c) then EmptyString else String a EmptyString
            | r => String a r
            end).
    by rewrite IH.
Qed.

(** The path of a child lies under the path of its parent. *)
Lemma child_path_under (under ruta nombre : string) :
  Py.startswith under (Py.rstrip "/" ruta +:+ "/") = true ->
  Py.startswith under (Py.rstrip "/" ruta +:+ "/" +:+ nombre) = true
  /\ Py.startswith under (Py.rstrip "/" (Py.rstrip "/" ruta +:+ "/" +:+ nombre) +:+ "/") = true.
Proof.
  intros Hunder. split.
  - rewrite <- append_assoc. by apply startswith_append.
  - rewrite rstrip_append_cases.
    destruct (Py.rstrip "/" ("/" +:+ nombre)) as [|x kept] eqn:Hkept.
    + by rewrite rstrip_idempotent.
    + assert (x = "/"%char) as ->.
      { rewrite append_cons, append_nil_l in Hkept. simpl in Hkept.
        destruct (Py.rstrip "/" nombre); [|by simplify_eq].
        destruct (decide ("/"%char = "/"%char)); by simplify_eq. }
      rewrite append_assoc.
      change (String "/" kept +:+ "/") with ("/" +:+ kept +:+ "/").
      rewrite <- append_assoc. by apply startswith_append.
Qed.

Section WalkRows.
Context (G : Graph) (io : storage) (self : Enum.enumerator) (budget : nat)
        (drive_id : option string) (archivos_csv : option string).

Local Abbreviation walk := (Enum.listar_archivos_recursivo G io self budget).

Lemma guardar_walk_event under ruta p it saved :
  Py.startswith under (Py.rstrip "/" ruta +:+ "/") = true ->
  Enum.guardar io archivos_csv (Enum.archivo_row drive_id ruta p it) = Some saved ->
  Forall (walk_event drive_id archivos_csv under) saved.
Proof.
  intros Hunder [->|(file & -> & ->)]%guardar_cases; repeat constructor. simpl.
  by apply child_path_under.
Qed.

Lemma procesar_items_walk_event under recurse ruta p items :
  Py.startswith under (Py.rstrip "/" ruta +:+ "/") = true ->
  (forall id r, Py.startswith under (Py.rstrip "/" r +:+ "/") = true ->
                Forall (walk_event drive_id archivos_csv under) (fst (recurse id r))) ->
  Forall (walk_event drive_id archivos_csv under)
    (fst (Enum.procesar_items recurse io self drive_id ruta p archivos_csv items)).
Proof.
  intros Hunder Hrec. induction items as [|it rest IH]; simpl; [constructor|].
  destruct (Enum.guardar io archivos_csv _) as [saved|] eqn:Hsaved; [|done].
  pose proof (guardar_walk_event under ruta p it saved Hunder Hsaved) as Hrow.
  assert (Hsub : Forall (walk_event drive_id archivos_csv under)
            (fst (if i_folder it && (p <? Enum.max_depth self)
                  then recurse (i_id it) (f_ruta (Enum.archivo_row drive_id ruta p it))
                  else ([], true)))).
  { destruct (i_folder it && (p <? Enum.max_depth self)); [|constructor].
    apply Hrec. simpl. by apply child_path_under. }
  destruct (if i_folder it && (p <? Enum.max_depth self) then _ else _) as [sub ok];
    simpl in Hsub.
  destruct ok.
  - destruct (Enum.procesar_items _ _ _ _ _ _ _ rest) as [more ok']; simpl in *.
    by repeat apply Forall_app_2.
  - simpl. by apply Forall_app_2.
Qed.

Lemma walk_walk_event under stack : forall item_id ruta p,
  Py.startswith under (Py.rstrip "/" ruta +:+ "/") = true ->
  Forall (walk_event drive_id archivos_csv under)
    (fst (walk stack drive_id item_id ruta p archivos_csv)).
Proof.
  induction stack as [|stack IH]; intros item_id ruta p Hunder; simpl.
  - destruct (p >? Enum.max_depth self); constructor.
  - destruct (p >? Enum.max_depth self); [constructor|].
    destruct (page_loop _ _ _ _) as [reqs out].
    assert (Hlisted : Forall (walk_event drive_id archivos_csv under) (ListChildren p <$> reqs)).
    { apply Forall_fmap, Forall_true. done. }
    destruct out as [items|items|items|items]; simpl; try done.
    + pose proof (procesar_items_walk_event under
          (fun sub_id sub_ruta => walk stack drive_id sub_id sub_ruta (p + 1) archivos_csv)
          ruta p items Hunder (fun id r Hr => IH id r (p + 1) Hr)) as Hitems.
      destruct (Enum.procesar_items _ _ _ _ _ _ _ items) as [evs ok]; simpl in *.
      by apply Forall_app_2.
    + pose proof (procesar_items_walk_event under
          (fun sub_id sub_ruta => walk stack drive_id sub_id sub_ruta (p + 1) archivos_csv)
          ruta p items Hunder (fun id r Hr => IH id r (p + 1) Hr)) as Hitems.
      destruct (Enum.procesar_items _ _ _ _ _ _ _ items) as [evs ok]; simpl in *.
      by apply Forall_app_2.
Qed.

End WalkRows.

(** X1.  Every row a walk writes goes to the file the walk was given,
    carries the id of the drive walked, and has a path under the path the
    walk started from; the walk makes listing requests and appends file rows
    and nothing else: it writes no other kind of row and never opens a file
    to write it anew. *)
Theorem walk_rows_belong (G : Graph) (io : storage) (self : Enum.enumerator)
    (budget stack : nat) (drive_id item_id : option string) (ruta : string)
    (profundidad : Z) (archivos_csv : option string) :
  Forall (walk_event drive_id archivos_csv (Py.rstrip "/" ruta +:+ "/"))
    (fst (Enum.listar_archivos_recursivo G io self budget stack drive_id item_id ruta
            profundidad archivos_csv)).
Proof.
  apply walk_walk_event.
  pose proof (startswith_self (Py.rstrip "/" ruta +:+ "/") EmptyString) as Hself.
  by rewrite append_nil_r in Hself.
Qed.

(** ** Drives of a user, whatever the service answers *)

Lemma obtener_shape (G : Graph) (user_id : option string) (user_email : string) :
  exists first extra,
    snd (Enum.obtener_todos_los_drives_usuario G user_id user_email) = first ++ extra
    /\ (first = []
        \/ exists d,
             get_drive G (Enum.graph +:+ "/users/" +:+ Py.fmt user_id +:+ "/drive")
               = Status 200 (Some d)
             /\ first = [Enum.set_type "personal" d])
    /\ Forall (fun x => d_type x = Some "shared") extra
    /\ NoDup (d_id <$> (first ++ extra)).
Proof.
  unfold Enum.obtener_todos_los_drives_usuario. simpl.
  set (first := match get_drive G _ with
                | Status code (Some d) => if code =? 200 then [Enum.set_type "personal" d] else []
                | _ => []
                end).
  assert (Hfirst : first = []
            \/ exists d,
                 get_drive G (Enum.graph +:+ "/users/" +:+ Py.fmt user_id +:+ "/drive")
                   = Status 200 (Some d)
                 /\ first = [Enum.set_type "personal" d]).
  { subst first. destruct (get_drive G _) as [|code [d|]]; try by left.
    destruct (Z.eqb_spec code 200) as [->|]; [right; by exists d|by left]. }
  assert (Hnodup : NoDup (d_id <$> first)).
  { destruct Hfirst as [->|(d & _ & ->)]; [constructor|apply NoDup_singleton]. }
  assert (Hnone : exists first' extra, first = first' ++ extra
            /\ (first' = []
                \/ exists d,
                     get_drive G (Enum.graph +:+ "/users/" +:+ Py.fmt user_id +:+ "/drive")
                       = Status 200 (Some d)
                     /\ first' = [Enum.set_type "personal" d])
            /\ Forall (fun x => d_type x = Some "shared") extra
            /\ NoDup (d_id <$> (first' ++ extra))).
  { exists first, []. rewrite app_nil_r. repeat split; try done. }
  destruct (get_drives G _) as [|code [data|]]; [exact Hnone| |exact Hnone].
  destruct (code =? 200); [|exact Hnone].
  rewrite enum_add_shared_fold.
  destruct (add_fresh_fold d_id d_id (Enum.set_type "shared") (fun _ => eq_refl)
              (default [] (value data)) first) as (extra & -> & Hmk & Hnd & _).
  exists first, extra. split; [done|]. split; [done|]. split; [|by apply Hnd].
  eapply Forall_impl; [exact Hmk|]. by intros x (y & _ & ->).
Qed.

(** X2.  Whatever the two lookups answer, the drives resolved for a user
    hold no id twice, every one of them is tagged [personal] or [shared],
    only the first can be [personal], and it is so exactly when the default
    lookup was answered with status 200 and a body; two requests are made in
    every case. *)
Theorem drives_always_deduplicated (G : Graph) (user_id : option string)
    (user_email : string) :
  NoDup (d_id <$> snd (Enum.obtener_todos_los_drives_usuario G user_id user_email))
  /\ Forall (fun x => d_type x = Some "personal" \/ d_type x = Some "shared")
       (snd (Enum.obtener_todos_los_drives_usuario G user_id user_email))
  /\ Forall (fun x => d_type x = Some "shared")
       (tail (snd (Enum.obtener_todos_los_drives_usuario G user_id user_email)))
  /\ ((exists d, get_drive G (Enum.graph +:+ "/users/" +:+ Py.fmt user_id +:+ "/drive")
                   = Status 200 (Some d))
      \/ Forall (fun x => d_type x = Some "shared")
           (snd (Enum.obtener_todos_los_drives_usuario G user_id user_email)))
  /\ length (fst (Enum.obtener_todos_los_drives_usuario G user_id user_email)) = 2%nat.
Proof.
  destruct (obtener_shape G user_id user_email)
    as (first & extra & -> & Hfirst & Hshared & Hnodup).
  split; [done|].
  destruct Hfirst as [->|(d & Hget & ->)]; simpl.
  - split; [by eapply Forall_impl; [exact Hshared|]; intros; right|].
    split; [by destruct Hshared|]. split; [by right|done].
  - split; [constructor; [by left|by eapply Forall_impl; [exact Hshared|]; intros; right]|].
    split; [done|]. split; [left; by exists d|done].
Qed.

(** ** Listing the sites *)

(** X3.  [listar_todos_los_sites] follows the cursors like the listing of
    users: sites served in pages are returned whole and in order; when a
    page request is refused or raises, the sites of the pages before it are
    returned. *)
Theorem sites_listed (G : Graph) (budget : nat) (pages : list (list site)) :
  (serves (get_sites G) (Enum.graph +:+ "/sites?$top=200") pages ->
   (length pages <= budget)%nat ->
   snd (Enum.listar_todos_los_sites G budget) = Some (concat pages)
   /\ length (fst (Enum.listar_todos_los_sites G budget)) = length pages)
  /\
  ((stops_after (get_sites G) refuses (Enum.graph +:+ "/sites?$top=200") pages
    \/ stops_after (get_sites G) raises (Enum.graph +:+ "/sites?$top=200") pages) ->
   (length pages < budget)%nat ->
   snd (Enum.listar_todos_los_sites G budget) = Some (concat pages)
   /\ length (fst (Enum.listar_todos_los_sites G budget)) = S (length pages)).
Proof.
  split.
  - intros Hserves Hlen.
    destruct (page_loop_serves _ _ _ Hserves budget [] Hlen) as (reqs & Hloop & Hreqs).
    unfold Enum.listar_todos_los_sites. rewrite Hloop. simpl. by rewrite length_fmap.
  - intros [Hstop | Hstop] Hlen.
    + destruct (page_loop_refused _ _ _ Hstop budget [] Hlen) as (reqs & Hloop & Hreqs).
      unfold Enum.listar_todos_los_sites. rewrite Hloop. simpl. by rewrite length_fmap.
    + destruct (page_loop_raised _ _ _ Hstop budget [] Hlen) as (reqs & Hloop & Hreqs).
      unfold Enum.listar_todos_los_sites. rewrite Hloop. simpl. by rewrite length_fmap.
Qed.

Lemma sites_listed_witness :
  snd (Enum.listar_todos_los_sites Samples.sites_two_pages 3)
  = Some [Samples.sitio; Site (Some "s2") None None]
  /\ snd (Enum.listar_todos_los_sites Samples.silent 3) = Some [].
Proof.
  split.
  - refine (proj1 (proj1 (sites_listed Samples.sites_two_pages 3
              [[Samples.sitio]; [Site (Some "s2") None None]]) _ _)).
    + apply (serves_more _ _ (Some [Samples.sitio]) "https://next/2"
               [[Site (Some "s2") None None]]); [reflexivity | reflexivity |].
      apply (serves_last _ _ (Some [Site (Some "s2") None None]) None); reflexivity.
    + simpl. lia.
  - refine (proj1 (proj2 (sites_listed Samples.silent 3 []) _ _)).
    + right. apply stops_here. by left.
    + simpl. lia.
Defined.

(** ** Jobs *)



Section Jobs.
Context (G : Graph) (io : storage) (self : Enum.enumerator) (budget : nat).

Local Abbreviation root_walk archivos_csv d :=
  (Enum.listar_archivos_recursivo G io self budget (Enum.stack_for self) (d_id d) None
     "/" 0 (Some archivos_csv)).

(** Every event of the drive loop satisfies [P] when the summary rows that
    get written do, and with them the events of the walks that follow
    them. *)
Lemma procesar_drives_Forall (P : event -> Prop) summary archivos_csv drives :
  (forall d e, d ∈ drives -> summary d = Some e ->
     P e /\ Forall P (fst (root_walk archivos_csv d))) ->
  Forall P (fst (Enum.procesar_drives G io self budget summary archivos_csv drives)).
Proof.
  induction drives as [|d rest IH]; intros Hsum; simpl; [constructor|].
  assert (Hrest : Forall P
            (fst (Enum.procesar_drives G io self budget summary archivos_csv rest))).
  { apply IH. intros d' e Hd'. apply Hsum. by apply list_elem_of_further. }
  destruct (summary d) as [e|] eqn:He; [|done].
  destruct (Hsum d e (list_elem_of_here _ _) He) as [Hs Hd].
  destruct (Enum.listar_archivos_recursivo _ _ _ _ _ _ _ _ _ _) as [walk ok]. simpl in Hd.
  destruct ok.
  - destruct (Enum.procesar_drives _ _ _ _ _ _ rest) as [more ok']; simpl in *.
    constructor; [done|]. by apply Forall_app_2.
  - simpl. by constructor.
Qed.



End Jobs.

(** *** The pool *)

Section Pool.
Context (P : event -> Prop).

Local Abbreviation good := (fun j : Enum.job => Forall P (fst j)).

Lemma take_Forall workers queue : forall running,
  Forall good running -> Forall good queue ->
  Forall good (fst (Enum.take workers running queue))
  /\ Forall good (snd (Enum.take workers running queue)).
Proof.
  induction queue as [|j rest IH]; intros running Hrun Hqueue; simpl; [by split|].
  apply Forall_cons in Hqueue as [Hj Hrest].
  destruct (length running <? workers)%nat; [|by split; [|constructor]].
  destruct (Enum.finished j); [by apply IH|].
  apply IH; [|done]. apply Forall_app_2; [done|by constructor].
Qed.

Lemma turn_Forall i running e running' :
  Forall good running ->
  Enum.turn i running = Some (e, running') ->
  P e /\ Forall good running'.
Proof.
  intros Hrun. unfold Enum.turn.
  destruct (running !! i) as [[[|e' todo] ends]|] eqn:Hi; try done.
  intros [= <- <-].
  pose proof (Forall_lookup_1 _ _ _ _ Hrun Hi) as Hjob. simpl in Hjob.
  apply Forall_cons in Hjob as [He Htodo]. split; [done|].
  match goal with |- Forall _ (if ?over then _ else _) => destruct over end;
    [by apply Forall_delete|by apply Forall_insert].
Qed.

(** Every event of a run of the pool is an event of one of its jobs. *)
Lemma run_pool_Forall workers schedule : forall running queue,
  Forall good running -> Forall good queue ->
  Forall P (fst (Enum.run_pool workers schedule running queue)).
Proof.
  induction schedule as [|k schedule IH]; intros running queue Hrun Hqueue.
  - simpl. destruct (Enum.take workers running queue) as [[|j running'] queue'];
      constructor.
  - simpl. destruct (take_Forall workers queue running Hrun Hqueue) as [Hrun' Hqueue'].
    destruct (Enum.take workers running queue) as [running' queue']. simpl in *.
    destruct running' as [|j running']; [constructor|].
    destruct (Enum.turn _ (j :: running')) as [[e next]|] eqn:Hturn.
    + destruct (turn_Forall _ _ _ _ Hrun' Hturn) as [He Hnext].
      specialize (IH next queue' Hnext Hqueue').
      destruct (Enum.run_pool workers schedule next queue') as [evs ok].
      by constructor.
    + by apply IH.
Qed.

Lemma pool_Forall {A} workers schedule (run : A -> Enum.job) jobs :
  (forall j, j ∈ jobs -> Forall P (fst (run j))) ->
  Forall P (fst (Enum.pool workers schedule run jobs)).
Proof.
  intros Hjobs. apply run_pool_Forall; [constructor|].
  apply Forall_fmap, Forall_forall. intros j Hj. by apply Hjobs.
Qed.

End Pool.

Lemma rows_of_Forall (Q : FileRecord -> Prop) (tr : list event) :
  Forall (fun e => match e with Append _ (FileRow r) => Q r | _ => True end) tr ->
  Forall Q (rows_of tr).
Proof.
  unfold rows_of. induction 1 as [|e tr He _ IH]; [constructor|].
  destruct e as [| | | |f [| | |r]]; simpl; try done. by constructor.
Qed.



(** *** The quota arithmetic *)


Lemma truediv_in_range (a b : Z) :
  0 < b -> Z.abs a < Py.float_limit * b -> Py.truediv a b = Some (Py.Quotient a b).
Proof.
  intros Hb Ha. unfold Py.truediv.
  destruct (Z.eqb_spec b 0) as [|_]; [lia|].
  rewrite (Z.abs_eq b) by lia.
  by destruct (Z.leb_spec (Py.float_limit * b) (Z.abs a)); [lia|].
Qed.


Lemma gigabytes_in_range (bytes : Z) :
  Z.abs bytes < Py.float_limit * 1024 ^ 3 -> is_Some (Enum.gigabytes bytes).
Proof.
  intros Hbytes. unfold Enum.gigabytes.
  destruct (bytes =? 0); [done|].
  by rewrite truediv_in_range.
Qed.








(** ** The whole run *)

(** A run starts by creating the three files and requesting the token; every
    later event satisfies [P] when requests, summary rows and the events of
    walks from a drive root do. *)
Lemma generar_events (P : event -> Prop) (G : Graph) (io : storage) (self : Enum.enumerator)
    (budget : nat) (schedule_u schedule_s : list nat) (timestamp : string) :
  (forall u, P (Get u)) ->
  (forall r, P (Append ("usuarios_" +:+ timestamp +:+ ".csv") (UserRow r))) ->
  (forall r, P (Append ("sites_" +:+ timestamp +:+ ".csv") (SiteRow r))) ->
  (forall d, Forall P
     (fst (Enum.listar_archivos_recursivo G io self budget (Enum.stack_for self) (d_id d) None
             "/" 0 (Some ("archivos_" +:+ timestamp +:+ ".csv"))))) ->
  exists rest,
    fst (Enum.generar_reporte_completo G io self budget schedule_u schedule_s timestamp)
    = [Create ("usuarios_" +:+ timestamp +:+ ".csv") Enum.usuarios_headers;
       Create ("sites_" +:+ timestamp +:+ ".csv") Enum.sites_headers;
       Create ("archivos_" +:+ timestamp +:+ ".csv") Enum.archivos_headers;
       Post ("https://login.microsoftonline.com/" +:+ Enum.tenant_id self
               +:+ "/oauth2/v2.0/token")] ++ rest
    /\ Forall P rest.
Proof.
  intros Hget Huser Hsite Hwalk.
  assert (Hgets : forall l : list string, Forall P (Get <$> l)).
  { intros l. apply Forall_fmap, Forall_true. intros u. apply Hget. }
  pose proof (get_access_token_trace G self
                {| Enum.access_token := None; Enum.token_expires := None |}) as Htrace.
  unfold Enum.generar_reporte_completo.
  destruct (Enum.get_access_token G self _) as [auth [ok st]]. simpl in Htrace. subst auth.
  destruct ok; simpl; [|by exists []].
  unfold Enum.listar_todos_los_usuarios, Enum.listar_todos_los_sites.
  destruct (page_loop (get_users G) _ _ _) as [reqs_u out_u].
  destruct (Enum.returned out_u) as [usuarios|]; [|eexists; split; [done|]; apply Hgets].
  destruct (page_loop (get_sites G) _ _ _) as [reqs_s out_s].
  destruct (Enum.returned out_s) as [sites|];
    [|eexists; split; [done|]; apply Forall_app_2; apply Hgets].
  destruct (Enum.max_workers self <=? 0);
    [eexists; split; [done|]; apply Forall_app_2; apply Hgets|].
  assert (Hju : Forall P
            (fst (Enum.pool (Z.to_nat (Enum.max_workers self)) schedule_u
                    (fun u => Enum.procesar_usuario_paralelo G io self budget u
                                ("usuarios_" +:+ timestamp +:+ ".csv")
                                ("archivos_" +:+ timestamp +:+ ".csv")) usuarios))).
  { apply pool_Forall. intros u _. unfold Enum.procesar_usuario_paralelo.
    destruct (Enum.obtener_todos_los_drives_usuario G (u_id u) _) as [reqs drives] eqn:Hres.
    assert (Forall P reqs).
    { unfold Enum.obtener_todos_los_drives_usuario in Hres. inversion Hres.
      repeat constructor; apply Hget. }
    pose proof (procesar_drives_Forall G io self budget P
                  (Enum.user_summary io u ("usuarios_" +:+ timestamp +:+ ".csv"))
                  ("archivos_" +:+ timestamp +:+ ".csv") drives) as Hd.
    destruct (Enum.procesar_drives _ _ _ _ _ _ drives) as [evs ok]. simpl in *.
    apply Forall_app_2; [done|]. apply Hd. intros d e _.
    unfold Enum.user_summary, Enum.append.
    destruct (Enum.user_row u d) as [r|]; [|done].
    destruct (io _ (UserRow r)); [|done]. intros [= <-]. split; [apply Huser|apply Hwalk]. }
  assert (Hjs : Forall P
            (fst (Enum.pool (Z.to_nat (Enum.max_workers self)) schedule_s
                    (fun s => Enum.procesar_site_paralelo G io self budget s
                                ("sites_" +:+ timestamp +:+ ".csv")
                                ("archivos_" +:+ timestamp +:+ ".csv")) sites))).
  { apply pool_Forall. intros s _. unfold Enum.procesar_site_paralelo.
    destruct (page_loop (get_drives G) _ _ _) as [reqs out].
    assert (Hdrives : forall drives,
              Forall P
                (fst (Enum.procesar_drives G io self budget
                        (Enum.site_summary io s ("sites_" +:+ timestamp +:+ ".csv"))
                        ("archivos_" +:+ timestamp +:+ ".csv") drives))).
    { intros drives. apply procesar_drives_Forall. intros d e _.
      unfold Enum.site_summary, Enum.append.
      destruct (Enum.site_row s d) as [r|]; [|done].
      destruct (io _ (SiteRow r)); [|done]. intros [= <-]. split; [apply Hsite|apply Hwalk]. }
    destruct out as [drives|drives|drives|drives]; try apply Hgets.
    - specialize (Hdrives drives).
      destruct (Enum.procesar_drives _ _ _ _ _ _ drives) as [evs ok]. simpl in *.
      by apply Forall_app_2.
    - specialize (Hdrives drives).
      destruct (Enum.procesar_drives _ _ _ _ _ _ drives) as [evs ok]. simpl in *.
      by apply Forall_app_2. }
  destruct (Enum.pool _ _ _ usuarios) as [ev_ju ok_u]. simpl in Hju.
  destruct ok_u; simpl.
  - destruct (Enum.pool _ _ _ sites) as [ev_js ok_s]. simpl in Hjs.
    eexists. split; [done|]. by repeat apply Forall_app_2.
  - eexists. split; [done|]. by repeat apply Forall_app_2.
Qed.

(** X6.  In every run, finished or not, whatever the service answers,
    whichever appends raise and however the threads of the pool take their
    turns, every file row carries a depth between 0 and the depth limit and
    every children listing is requested at such a depth; with a negative
    limit no listing is requested and no file row is written. *)
Theorem run_depths (G : Graph) (io : storage) (self : Enum.enumerator) (budget : nat)
    (schedule_u schedule_s : list nat) (timestamp : string) :
  Forall (fun r => 0 <= f_profundidad r <= Enum.max_depth self)
    (rows_of (fst (Enum.generar_reporte_completo G io self budget schedule_u schedule_s
                     timestamp)))
  /\ Forall (fun d => 0 <= d <= Enum.max_depth self)
       (listing_depths
          (fst (Enum.generar_reporte_completo G io self budget schedule_u schedule_s
                  timestamp)))
  /\ (Enum.max_depth self < 0 ->
      rows_of (fst (Enum.generar_reporte_completo G io self budget schedule_u schedule_s
                      timestamp)) = []
      /\ listing_depths
           (fst (Enum.generar_reporte_completo G io self budget schedule_u schedule_s
                   timestamp)) = []).
Proof.
  destruct (generar_events
              (fun e => match e with
                        | ListChildren d _ => 0 <= d <= Enum.max_depth self
                        | Append _ (FileRow r) => 0 <= f_profundidad r <= Enum.max_depth self
                        | _ => True
                        end) G io self budget schedule_u schedule_s timestamp)
    as (rest & -> & Hrest); try done.
  { intros d. eapply Forall_impl; [apply walk_within|].
    by intros [| | | |f [| | |r]]. }
  assert (Hrows : Forall (fun r => 0 <= f_profundidad r <= Enum.max_depth self) (rows_of rest)).
  { apply rows_of_Forall. eapply Forall_impl; [exact Hrest|]. by intros [| | | |f [| | |r]]. }
  assert (Hlist : Forall (fun d => 0 <= d <= Enum.max_depth self) (listing_depths rest)).
  { clear Hrows. unfold listing_depths. induction Hrest as [|e rest He _ IH]; [constructor|].
    destruct e as [| | |d u|f line]; simpl; try done. by constructor. }
  change (rows_of (_ ++ rest)) with (rows_of rest).
  change (listing_depths (_ ++ rest)) with (listing_depths rest).
  split; [done|]. split; [done|]. intros Hneg. split.
  - destruct Hrows as [|r rows Hr _]; [done|lia].
  - destruct Hlist as [|d ds Hd _]; [done|lia].
Qed.

Lemma run_depths_witness :
  rows_of (fst (Enum.generar_reporte_completo Samples.tenant Samples.writable
                  (Samples.depth (-1)) 3 [0; 0; 0; 0]%nat [0; 0]%nat "t")) = []
  /\ listing_depths
       (fst (Enum.generar_reporte_completo Samples.tenant Samples.writable
               (Samples.depth (-1)) 3 [0; 0; 0; 0]%nat [0; 0]%nat "t")) = [].
Proof.
  refine (proj2 (proj2 (run_depths Samples.tenant Samples.writable (Samples.depth (-1)) 3
                          [0; 0; 0; 0]%nat [0; 0]%nat "t")) _).
  simpl. lia.
Defined.




(** With two workers the rows of two users land in the order the threads
    take their turns: here the row of [luis] before the row of [ana]. *)
Example two_workers_interleave :
  ur_user_id
    <$> user_rows_of
          (Enum.trace (Enum.main Samples.two_users Samples.writable (Samples.workers 2 0) 3
                         [1; 1; 1; 1; 0; 0; 0; 0]%nat [] "t" ∅))
  = [Some "u2"; Some "u1"]
  /\ Enum.exit_status (Enum.main Samples.two_users Samples.writable (Samples.workers 2 0) 3
                         [1; 1; 1; 1; 0; 0; 0; 0]%nat [] "t" ∅) = Some 0
  /\ ur_user_id
       <$> user_rows_of
             (Enum.trace (Enum.main Samples.two_users Samples.writable (Samples.workers 1 0) 3
                            [1; 1; 1; 1; 0; 0; 0; 0]%nat [] "t" ∅))
     = [Some "u1"; Some "u2"].
Proof. repeat split; reflexivity. Qed.




(** ** The pool *)

Lemma finished_empty (j : Enum.job) : Enum.finished j = true -> fst j = [].
Proof. by destruct j as [[|e todo] ends]. Qed.

(** Taking jobs from the queue loses no event. *)
Lemma take_concat workers queue : forall running,
  concat (fst <$> fst (Enum.take workers running queue))
    ++ concat (fst <$> snd (Enum.take workers running queue))
  = concat (fst <$> running) ++ concat (fst <$> queue).
Proof.
  induction queue as [|j rest IH]; intros running; simpl; [done|].
  destruct (length running <? workers)%nat; [|done].
  destruct (Enum.finished j) eqn:Hj.
  - rewrite IH. by rewrite (finished_empty j Hj).
  - rewrite IH, fmap_app, concat_app. simpl. by rewrite app_nil_r, <- app_assoc.
Qed.

Lemma take_length workers queue : forall running,
  (length running <= workers)%nat ->
  (length (fst (Enum.take workers running queue)) <= workers)%nat.
Proof.
  induction queue as [|j rest IH]; intros running Hlen; simpl; [done|].
  destruct (Nat.ltb_spec (length running) workers); [|done].
  destruct (Enum.finished j); [by apply IH|].
  apply IH. rewrite length_app. simpl. lia.
Qed.

(** What is left to do after a turn. *)
Lemma turn_rest i running e running' :
  Enum.turn i running = Some (e, running') ->
  exists todo ends,
    running !! i = Some (e :: todo, ends)
    /\ concat (fst <$> running')
       = concat (fst <$> take i running) ++ todo ++ concat (fst <$> drop (S i) running)
    /\ (length running' <= length running)%nat.
Proof.
  unfold Enum.turn.
  destruct (running !! i) as [[[|e' todo] ends]|] eqn:Hi; try done.
  intros [= <- <-]. exists todo, ends. split; [done|].
  pose proof (lookup_lt_Some _ _ _ Hi) as Hlt.
  assert (Hinsert : forall j : Enum.job,
            concat (fst <$> <[i:=j]> running)
            = concat (fst <$> take i running) ++ fst j ++ concat (fst <$> drop (S i) running)
            /\ (length (<[i:=j]> running) <= length running)%nat).
  { intros j. rewrite length_insert. split; [|done].
    rewrite insert_take_drop by done. by rewrite fmap_app, concat_app. }
  destruct todo as [|e2 todo]; [destruct ends|]; simpl; try apply Hinsert.
  rewrite delete_take_drop, fmap_app, concat_app. split; [done|].
  rewrite length_app, length_take, length_drop. lia.
Qed.

Lemma turn_perm i running e running' :
  Enum.turn i running = Some (e, running') ->
  concat (fst <$> running) ≡ₚ e :: concat (fst <$> running').
Proof.
  intros (todo & ends & Hi & -> & _)%turn_rest.
  rewrite <- (take_drop_middle running i _ Hi) at 1.
  rewrite fmap_app, concat_app. simpl.
  by rewrite <- Permutation_middle.
Qed.

Lemma run_pool_step workers k schedule running queue :
  Enum.run_pool workers (k :: schedule) running queue
  = let '(running, queue) := Enum.take workers running queue in
    match running with
    | [] => ([], match queue with [] => true | _ => false end)
    | _ :: _ =>
        match Enum.turn (k mod length running) running with
        | Some (e, running') =>
            let '(evs, ok) := Enum.run_pool workers schedule running' queue in
            (e :: evs, ok)
        | None => Enum.run_pool workers schedule running queue
        end
    end.
Proof. done. Qed.

(** X18.  A pool that has returned has made every event of every job
    exactly once: its trace is a rearrangement of the traces of the jobs,
    however the threads took their turns and whatever the number of
    workers. *)
Theorem pool_keeps_every_event {A : Type} (workers : nat) (schedule : list nat)
    (run : A -> Enum.job) (jobs : list A) :
  snd (Enum.pool workers schedule run jobs) = true ->
  fst (Enum.pool workers schedule run jobs) ≡ₚ concat (fst <$> (run <$> jobs)).
Proof.
  unfold Enum.pool.
  change (concat (fst <$> (run <$> jobs)))
    with (concat (fst <$> @nil Enum.job) ++ concat (fst <$> (run <$> jobs))).
  generalize (@nil Enum.job) as running. generalize (run <$> jobs) as queue.
  induction schedule as [|k schedule IH]; intros queue running; simpl;
    rewrite <- (take_concat workers queue running);
    destruct (Enum.take workers running queue) as [[|j running'] queue']; simpl.
  - by destruct queue'.
  - done.
  - by destruct queue'.
  - destruct (Enum.turn _ (j :: running')) as [[e next]|] eqn:Hturn.
    + specialize (IH queue' next).
      destruct (Enum.run_pool workers schedule next queue') as [evs ok]. simpl in *.
      intros Hok. rewrite (IH Hok).
      change (fst j ++ concat (fst <$> running'))
        with (concat (fst <$> j :: running')).
      by rewrite (turn_perm _ _ _ _ Hturn).
    + apply IH.
Qed.

Lemma pool_keeps_every_event_witness :
  fst (Enum.pool 2 [1; 1; 1; 1; 0; 0; 0; 0]%nat
         (fun u => Enum.procesar_usuario_paralelo Samples.two_users Samples.writable
                     (Samples.depth 0) 3 u "usuarios.csv" "archivos.csv")
         [Samples.ana; Samples.luis])
  ≡ₚ concat (fst <$> ((fun u => Enum.procesar_usuario_paralelo Samples.two_users
                                  Samples.writable (Samples.depth 0) 3 u
                                  "usuarios.csv" "archivos.csv")
                        <$> [Samples.ana; Samples.luis])).
Proof.
  refine (pool_keeps_every_event 2 [1; 1; 1; 1; 0; 0; 0; 0]%nat _
            [Samples.ana; Samples.luis] _).
  reflexivity.
Defined.

(** X19.  With one worker the pool runs the jobs one after the other in
    submission order: its trace is a prefix of the traces of the jobs put
    end to end, and all of it once the pool has returned. *)
Theorem one_worker_in_order {A : Type} (schedule : list nat) (run : A -> Enum.job)
    (jobs : list A) :
  fst (Enum.pool 1 schedule run jobs) `prefix_of` concat (fst <$> (run <$> jobs))
  /\ (snd (Enum.pool 1 schedule run jobs) = true ->
      fst (Enum.pool 1 schedule run jobs) = concat (fst <$> (run <$> jobs))).
Proof.
  unfold Enum.pool.
  change (concat (fst <$> (run <$> jobs)))
    with (concat (fst <$> @nil Enum.job) ++ concat (fst <$> (run <$> jobs))).
  assert (Hlen : (length (@nil Enum.job) <= 1)%nat) by (simpl; lia).
  revert Hlen.
  generalize (@nil Enum.job) as running. generalize (run <$> jobs) as queue.
  induction schedule as [|k schedule IH]; intros queue running Hlen.
  - simpl. rewrite <- (take_concat 1 queue running).
    destruct (Enum.take 1 running queue) as [[|j running'] queue']; simpl.
    + split; [apply prefix_nil|]. by destruct queue'.
    + split; [apply prefix_nil|done].
  - rewrite run_pool_step, <- (take_concat 1 queue running).
    pose proof (take_length 1 queue running Hlen) as Hlen'.
    destruct (Enum.take 1 running queue) as [[|j [|j' running']] queue']; cbn [fst snd] in *.
    + split; [apply prefix_nil|]. simpl. by destruct queue'.
    + change (length [j]) with 1%nat. rewrite Nat.mod_1_r.
      destruct (Enum.turn 0 [j]) as [[e next]|] eqn:Hturn; [|by apply IH].
      destruct (turn_rest _ _ _ _ Hturn) as (todo & ends & Hj & Hnext & Hshort).
      simpl in Hj, Hnext, Hshort. injection Hj as ->.
      specialize (IH queue' next Hshort). rewrite Hnext, app_nil_r in IH.
      destruct (Enum.run_pool 1 schedule next queue') as [evs ok]. simpl in *.
      rewrite app_nil_r. destruct IH as [IHp IHe]. split.
      * by apply prefix_cons.
      * intros Hok. by rewrite (IHe Hok).
    + simpl in Hlen'. lia.
Qed.



Lemma one_worker_in_order_witness :
  fst (Enum.pool 1 [1; 1; 1; 1; 0; 0; 0; 0]%nat
         (fun u => Enum.procesar_usuario_paralelo Samples.two_users Samples.writable
                     (Samples.depth 0) 3 u "usuarios.csv" "archivos.csv")
         [Samples.ana; Samples.luis])
  = concat (fst <$> ((fun u => Enum.procesar_usuario_paralelo Samples.two_users
                                 Samples.writable (Samples.depth 0) 3 u
                                 "usuarios.csv" "archivos.csv")
                       <$> [Samples.ana; Samples.luis])).
Proof.
  refine (proj2 (one_worker_in_order [1; 1; 1; 1; 0; 0; 0; 0]%nat _
                   [Samples.ana; Samples.luis]) _).
  reflexivity.
Defined.

(** * Further properties of the explorer *)

(** ** The tenant-wide search *)

Lemma search_sites_exact (G : Graph) (sites : list site) : forall drives s,
  Explorer.search_sites G sites drives s
  = (Explorer.Returns (drives ++ concat (site_drives G <$> sites)),
     {| Explorer.drive_id := Explorer.drive_id s;
        Explorer.available_drives := Explorer.available_drives s;
        Explorer.requests :=
          Explorer.requests s
            ++ ((fun st => Explorer.graph +:+ "/sites/" +:+ Py.fmt (s_id st) +:+ "/drives")
                  <$> sites) |}).
Proof.
  induction sites as [|st sites IH]; intros drives s.
  - simpl. rewrite !app_nil_r. by destruct s.
  - cbn [Explorer.search_sites fmap list_fmap concat].
    unfold Explorer.bind at 1, Explorer.try_except, Explorer.bind at 1, Explorer.http.
    unfold site_drives at 1.
    set (u := Explorer.graph +:+ "/sites/" +:+ Py.fmt (s_id st) +:+ "/drives").
    destruct (get_drives G u) as [|code [data|]];
      unfold Explorer.ret, Explorer.json, Explorer.bind, Explorer.ret;
      cbn -[site_drives from_option Explorer.search_sites];
      [|destruct (code =? 200)|destruct (code =? 200)];
      cbn -[site_drives from_option Explorer.search_sites];
      rewrite IH; cbn -[site_drives from_option];
      by rewrite <- ?app_assoc, ?app_nil_r.
Qed.

(** X8.  The tenant-wide search never raises.  When the site search is
    answered with status 200 and a body, the drives of every site found are
    requested, once each and in the order found, whether or not the earlier
    requests succeeded, and the result is the drives of the sites that
    answered with status 200 and a body, in that order.  Otherwise the result
    is empty and the site search is the only request made. *)
Theorem global_search (G : Graph) (email : string) (s : Explorer.explorer) :
  (forall data,
     get_sites G (Explorer.search_url email) = Status 200 (Some data) ->
     Explorer.search_all_drives_by_email G email s
     = (Explorer.Returns (concat (site_drives G <$> default [] (value data))),
        {| Explorer.drive_id := Explorer.drive_id s;
           Explorer.available_drives := Explorer.available_drives s;
           Explorer.requests :=
             Explorer.requests s
               ++ Explorer.search_url email
               :: ((fun st => Explorer.graph +:+ "/sites/" +:+ Py.fmt (s_id st) +:+ "/drives")
                     <$> default [] (value data)) |}))
  /\
  (refuses (get_sites G (Explorer.search_url email))
   \/ raises (get_sites G (Explorer.search_url email)) ->
   Explorer.search_all_drives_by_email G email s
   = (Explorer.Returns [], Explorer.sent s (Explorer.search_url email))).
Proof.
  unfold Explorer.search_all_drives_by_email, Explorer.bind, Explorer.try_except,
    Explorer.http.
  split.
  - intros data ->. cbn -[from_option]. rewrite search_sites_exact. cbn -[from_option].
    by rewrite <- app_assoc.
  - intros [(code & body & -> & Hcode) | [-> | ->]]; cbn; [|done|done].
    by destruct (Z.eqb_spec code 200).
Qed.

Lemma global_search_witness :
  Explorer.search_all_drives_by_email Samples.deleted_user "ana@contoso.com" Explorer.fresh
  = (Explorer.Returns [Samples.drive_a; Samples.drive_b],
     {| Explorer.drive_id := None;
        Explorer.available_drives := [];
        Explorer.requests :=
          [Explorer.search_url "ana@contoso.com";
           "https://graph.microsoft.com/v1.0/sites/s1/drives";
           "https://graph.microsoft.com/v1.0/sites/s2/drives"] |})
  /\ Explorer.search_all_drives_by_email Samples.silent "ana@contoso.com" Explorer.fresh
     = (Explorer.Returns [], Explorer.sent Explorer.fresh (Explorer.search_url "ana@contoso.com")).
Proof.
  split.
  - exact (proj1 (global_search Samples.deleted_user "ana@contoso.com" Explorer.fresh)
             (Page (Some [Site (Some "s1") None None; Site (Some "s2") None None]) None)
             eq_refl).
  - refine (proj2 (global_search Samples.silent "ana@contoso.com" Explorer.fresh) _).
    right. by left.
Defined.

(** ** The menu *)



(** ** The email in a URL *)

(** X10.  A slash appended to the URL changes neither the segment cut out
    of it nor the email derived from it. *)
Theorem url_trailing_slash (onedrive_url : string) :
  email_of_url (onedrive_url +:+ "/") = email_of_url onedrive_url
  /\ personal_part (onedrive_url +:+ "/") = personal_part onedrive_url.
Proof.
  assert (Hpart : personal_part (onedrive_url +:+ "/") = personal_part onedrive_url).
  { unfold personal_part. rewrite rstrip_append_cases. done. }
  split; [|done]. unfold email_of_url. by rewrite Hpart.
Qed.

(** ** Browsing *)

Lemma no_match (lower : string -> string) (name : string) (items : list item) :
  Forall (fun x => lower (default "" (i_name x)) <> lower name) items ->
  Explorer.get_item_by_name lower name items = None.
Proof.
  induction 1 as [|x items Hx _ IH]; simpl; [done|].
  by rewrite bool_decide_eq_false_2.
Qed.

(** X11.  [get_item_by_name] returns the first item of the listing whose
    name equals the name asked for once both are put in lower case, and
    [None] exactly when the listing has no such item. *)
Theorem first_match (lower : string -> string) (name : string) (items : list item) :
  (forall it,
     Explorer.get_item_by_name lower name items = Some it ->
     exists before after,
       items = before ++ it :: after
       /\ lower (default "" (i_name it)) = lower name
       /\ Forall (fun x => lower (default "" (i_name x)) <> lower name) before)
  /\
  (Explorer.get_item_by_name lower name items = None
   <-> Forall (fun x => lower (default "" (i_name x)) <> lower name) items).
Proof.
  induction items as [|x items [IHsome IHnone]]; simpl.
  - split; [done|]. split; [constructor|done].
  - case_bool_decide as Hx.
    + split.
      * intros it [= ->]. exists [], items. by repeat split.
      * split; [done|]. by intros [Hne _]%Forall_cons.
    + split.
      * intros it Hit. destruct (IHsome it Hit) as (before & after & -> & Hlow & Hbefore).
        exists (x :: before), after. split; [done|]. split; [done|]. by constructor.
      * rewrite IHnone. split; [by constructor|by intros [_ ?]%Forall_cons].
Qed.

Lemma first_match_witness :
  exists before after,
    [Samples.informe; Samples.fotos; Samples.viajes] = before ++ Samples.fotos :: after
    /\ Samples.lower_ascii (default "" (i_name Samples.fotos)) = Samples.lower_ascii "FOTOS"
    /\ Forall (fun x => Samples.lower_ascii (default "" (i_name x)) <> Samples.lower_ascii "FOTOS")
         before.
Proof.
  exact (proj1 (first_match Samples.lower_ascii "FOTOS"
                  [Samples.informe; Samples.fotos; Samples.viajes]) Samples.fotos eq_refl).
Defined.

Section SplitOnChar.
Context (c : ascii).

Local Abbreviation sep := (String c EmptyString).

Lemma split_nonempty (s : string) : Py.split_from sep O s <> [].
Proof.
  destruct s as [|a s]; simpl; [done|].
  destruct (decide (c = a)); [done|]. by destruct (Py.split_from sep O s).
Qed.

(** Cutting at a separator splits the pieces of the two sides. *)
Lemma split_append_sep (s t : string) :
  Py.split_from sep O (s +:+ String c t) = Py.split_from sep O s ++ Py.split_from sep O t.
Proof.
  induction s as [|a s IH]; rewrite ?append_nil_l, ?append_cons; simpl.
  - by destruct (decide (c = c)).
  - destruct (decide (c = a)); simpl; [by rewrite IH|].
    rewrite IH. pose proof (split_nonempty s) as Hne.
    by destruct (Py.split_from sep O s).
Qed.

Lemma join_cons_char (a : ascii) (p : string) (ps : list string) :
  Py.join sep (String a p :: ps) = String a (Py.join sep (p :: ps)).
Proof. by destruct ps. Qed.

(** Joining the pieces of a string gives the string back. *)
Lemma join_split (s : string) : Py.join sep (Py.split_from sep O s) = s.
Proof.
  induction s as [|a s IH]; simpl; [done|].
  pose proof (split_nonempty s) as Hne.
  destruct (decide (c = a)) as [<-|].
  - destruct (Py.split_from sep O s) as [|p ps]; [done|].
    change (Py.join sep (EmptyString :: p :: ps)) with (String c (Py.join sep (p :: ps))).
    by rewrite IH.
  - destruct (Py.split_from sep O s) as [|p ps]; [done|].
    by rewrite join_cons_char, IH.
Qed.

End SplitOnChar.

(** Going down into [target] and up again. *)
Lemma parent_of_child (path target : string) :
  normal_path path ->
  target <> EmptyString ->
  Py.has_char "/" target = false ->
  Explorer.parent_path (Py.rstrip "/" path +:+ "/" +:+ target) = path
  /\ normal_path (Py.rstrip "/" path +:+ "/" +:+ target)
  /\ Py.rstrip "/" path +:+ "/" +:+ target <> "/".
Proof.
  intros Hnormal Hne Htarget.
  assert (Hchild : Py.rstrip "/" (Py.rstrip "/" path +:+ "/" +:+ target)
                   = Py.rstrip "/" path +:+ "/" +:+ target).
  { apply rstrip_append.
    - intros Heq. by apply append_empty in Heq.
    - apply rstrip_append; [done|]. by apply rstrip_without. }
  split; [|split].
  - unfold Explorer.parent_path. rewrite Hchild. unfold Py.split.
    change ("/" +:+ target) with (String "/" target).
    rewrite (split_append_sep "/"), (split_no_sep "/" target Htarget).
    pose proof (split_nonempty "/" (Py.rstrip "/" path)) as Hparts.
    assert (Hlen : (1 <? length (Py.split_from "/" 0 (Py.rstrip "/" path) ++ [target]))%nat
                   = true).
    { apply Nat.ltb_lt. rewrite length_app. simpl.
      destruct (Py.split_from "/" 0 (Py.rstrip "/" path)); [done|simpl; lia]. }
    rewrite Hlen, removelast_last, (join_split "/").
    destruct Hnormal as [-> | [Hpath ->]]; [done|].
    by destruct path.
  - right. split; [|done]. intros Heq. apply append_empty in Heq.
    by apply append_empty in Heq.
  - intros Heq. destruct (Py.rstrip "/" path) as [|a q]; rewrite ?append_nil_l, ?append_cons in Heq.
    + change ("/" +:+ target) with (String "/" target) in Heq. by simplify_eq.
    + injection Heq as _ Heq. by apply append_empty in Heq.
Qed.

(** X12.  Going into a folder and back up restores the path, whatever the
    folder is called (with no slash in its name); but [cd ..] leaves the
    browser at the item of the drive root, not at the item it came from. *)
Theorem cd_round_trip (lower : string -> string) (G : Graph) (budget : nat)
    (drive_id : option string) (target : string) (loc : Explorer.location)
    (evs : list event) (items : list item) (it : item) :
  normal_path (Explorer.current_path loc) ->
  target <> EmptyString ->
  target <> ".." ->
  Py.has_char "/" target = false ->
  Py.truthy_opt drive_id = true ->
  Explorer.list_files G budget drive_id (Explorer.current_item_id loc) = (evs, Some items) ->
  Explorer.get_item_by_name lower target items = Some it ->
  i_folder it = true ->
  exists inside,
    Explorer.cmd_cd lower G budget drive_id target loc = (evs, Some inside)
    /\ Explorer.current_item_id inside = i_id it
    /\ normal_path (Explorer.current_path inside)
    /\ Explorer.cmd_cd lower G budget drive_id ".." inside
       = ([], Some {| Explorer.current_item_id := None;
                      Explorer.current_path := Explorer.current_path loc |}).
Proof.
  intros Hnormal Hne Hup Hslash Hdrive Hlist Hfound Hfolder.
  destruct (parent_of_child (Explorer.current_path loc) target Hnormal Hne Hslash)
    as (Hparent & Hchild & Hnotroot).
  assert (Hroot : target <> "/").
  { intros ->. done. }
  eexists. split; [|split; [|split]].
  - unfold Explorer.cmd_cd. rewrite Hdrive. simpl.
    rewrite bool_decide_eq_false_2 by done. rewrite bool_decide_eq_false_2 by done.
    rewrite Hlist, Hfound, Hfolder. done.
  - done.
  - exact Hchild.
  - unfold Explorer.cmd_cd. rewrite Hdrive. cbn -[Explorer.parent_path bool_decide].
    rewrite (bool_decide_eq_true_2 (".." = "..")) by done.
    rewrite bool_decide_eq_false_2 by done. by rewrite Hparent.
Qed.

Lemma cd_round_trip_witness :
  exists inside,
    Explorer.cmd_cd Samples.lower_ascii Samples.browsing 3 (Some "b!x") "FOTOS" Explorer.root
    = ([Get Samples.root_of_bx], Some inside)
    /\ Explorer.current_item_id inside = Some "i2"
    /\ normal_path (Explorer.current_path inside)
    /\ Explorer.cmd_cd Samples.lower_ascii Samples.browsing 3 (Some "b!x") ".." inside
       = ([], Some {| Explorer.current_item_id := None; Explorer.current_path := "/" |}).
Proof.
  refine (cd_round_trip Samples.lower_ascii Samples.browsing 3 (Some "b!x") "FOTOS"
            Explorer.root [Get Samples.root_of_bx] [Samples.informe; Samples.fotos]
            Samples.fotos _ _ _ _ _ _ _ _); try reflexivity; try discriminate.
  by left.
Defined.

(** X13.  [cd] to a name that the listing does not hold, or that is not a
    folder, makes the requests of the listing and leaves the browser where
    it was; without a drive it makes no request at all. *)
Theorem cd_stays (lower : string -> string) (G : Graph) (budget : nat)
    (drive_id : option string) (target : string) (loc : Explorer.location)
    (evs : list event) (items : list item) :
  (Py.truthy_opt drive_id = false ->
   Explorer.cmd_cd lower G budget drive_id target loc = ([], Some loc))
  /\
  (target <> ".." ->
   target <> "/" ->
   Explorer.list_files G budget drive_id (Explorer.current_item_id loc) = (evs, Some items) ->
   (Forall (fun x => lower (default "" (i_name x)) <> lower target) items
    \/ exists it, Explorer.get_item_by_name lower target items = Some it
                  /\ i_folder it = false) ->
   Explorer.cmd_cd lower G budget drive_id target loc = (evs, Some loc)).
Proof.
  split.
  - intros Hdrive. unfold Explorer.cmd_cd. by rewrite Hdrive.
  - intros Hup Hroot Hlist Hmiss. unfold Explorer.cmd_cd.
    destruct (Py.truthy_opt drive_id) eqn:Hdrive; simpl.
    + rewrite bool_decide_eq_false_2 by done. rewrite bool_decide_eq_false_2 by done.
      rewrite Hlist. destruct Hmiss as [Hnone | (it & -> & ->)]; [|done].
      by rewrite (no_match lower target items Hnone).
    + unfold Explorer.list_files in Hlist.
      destruct drive_id as [d|]; simpl in Hdrive; [rewrite Hdrive in Hlist|];
        by inversion Hlist.
Qed.

Lemma cd_stays_witness :
  Explorer.cmd_cd Samples.lower_ascii Samples.browsing 3 None "Fotos" Explorer.root
  = ([], Some Explorer.root)
  /\ Explorer.cmd_cd Samples.lower_ascii Samples.browsing 3 (Some "b!x") "INFORME.docx"
       Explorer.root
     = ([Get Samples.root_of_bx], Some Explorer.root).
Proof.
  split.
  - exact (proj1 (cd_stays Samples.lower_ascii Samples.browsing 3 None "Fotos" Explorer.root
                    [] []) eq_refl).
  - refine (proj2 (cd_stays Samples.lower_ascii Samples.browsing 3 (Some "b!x")
                     "INFORME.docx" Explorer.root [Get Samples.root_of_bx]
                     [Samples.informe; Samples.fotos]) _ _ eq_refl _); try discriminate.
    right. by exists Samples.informe.
Defined.

(** ** The drive the resolution settles on *)

Lemma settles_ret {A} (won : A -> bool) (a : A) :
  won a = false -> settles won (Explorer.ret a).
Proof. intros Hlost s. simpl. by rewrite Hlost. Qed.

Lemma settles_throw {A} (won : A -> bool) : settles won (@Explorer.throw A).
Proof. by intros s. Qed.

Lemma settles_http {A} (get : string -> response A) (url : string) :
  settles (fun _ => false) (Explorer.http get url).
Proof. intros s. unfold Explorer.http. by destruct (get url). Qed.

Lemma settles_json {A} (body : option A) : settles (fun _ => false) (Explorer.json body).
Proof. intros s. by destruct body. Qed.

Lemma settles_set_available (l : list Explorer.entry) :
  settles (fun _ => false) (Explorer.set_available_drives l).
Proof. by intros s. Qed.

Lemma settles_get_available : settles (fun _ => false) Explorer.get_available_drives.
Proof. by intros s. Qed.

(** Sequencing: once a step has succeeded the rest only hands the result
    on; until then the rest is free to settle. *)
Lemma settles_bind {A B} (won : A -> bool) (won' : B -> bool)
    (m : Explorer.M A) (k : A -> Explorer.M B) :
  settles won m ->
  (forall a, if won a then exists b, k a = Explorer.ret b /\ won' b = true
             else settles won' (k a)) ->
  settles won' (Explorer.bind m k).
Proof.
  intros Hm Hk s. unfold Explorer.bind. specialize (Hm s).
  destruct (m s) as [[a|] s1]; [|done].
  specialize (Hk a). destruct (won a).
  - destruct Hk as (b & -> & Hb). simpl. by rewrite Hb.
  - specialize (Hk s1). destruct (k a s1) as [[b|] s2]; [|congruence].
    destruct (won' b); [done|congruence].
Qed.

Lemma settles_then {A B} (won : B -> bool) (m : Explorer.M A) (k : A -> Explorer.M B) :
  settles (fun _ => false) m ->
  (forall a, settles won (k a)) ->
  settles won (Explorer.bind m k).
Proof. intros Hm Hk. apply (settles_bind (fun _ => false)); [done|]. intros a. apply Hk. Qed.

Lemma settles_try {A} (won : A -> bool) (m handler : Explorer.M A) :
  settles won m -> settles won handler -> settles won (Explorer.try_except m handler).
Proof.
  intros Hm Hh s. unfold Explorer.try_except. specialize (Hm s).
  destruct (m s) as [[a|] s1]; [done|].
  specialize (Hh s1). destruct (handler s1) as [[b|] s2]; [|congruence].
  destruct (won b); [done|congruence].
Qed.

Lemma settles_search_sites (G : Graph) (sites : list site) (drives : list drive) :
  settles (fun _ => false) (Explorer.search_sites G sites drives).
Proof.
  revert drives. induction sites as [|st sites IH]; intros drives; simpl.
  - by apply settles_ret.
  - apply settles_then; [|intros drives'; apply IH].
    apply settles_try; [|by apply settles_ret].
    apply settles_then; [apply settles_http|]. intros r.
    destruct (fst r =? 200); [|by apply settles_ret].
    apply settles_then; [apply settles_json|]. intros data. by apply settles_ret.
Qed.

Lemma settles_search_all (G : Graph) (email : string) :
  settles (fun _ => false) (Explorer.search_all_drives_by_email G email).
Proof.
  apply settles_try; [|by apply settles_ret].
  apply settles_then; [apply settles_http|]. intros r.
  destruct (fst r =? 200); [|by apply settles_ret].
  apply settles_then; [apply settles_json|]. intros data. apply settles_search_sites.
Qed.

Lemma settles_select_drive (stdin : Explorer.keyboard) :
  settles (fun b : bool => b) (Explorer.select_drive stdin).
Proof.
  intros s. unfold Explorer.select_drive, Explorer.bind, Explorer.get_available_drives.
  simpl. case_bool_decide; [|done].
  destruct stdin as [typed| |]; try done.
  destruct (_ && _); [|done].
  destruct (Explorer.available_drives s !! _) as [d|] eqn:Hd; [|done].
  simpl. exists d. split; [|done]. by eapply list_elem_of_lookup_2.
Qed.

Lemma settles_choose (stdin : Explorer.keyboard) (on_empty : Explorer.M bool) :
  settles (fun b : bool => b) on_empty ->
  settles (fun b : bool => b) (Explorer.choose stdin on_empty).
Proof.
  intros Hempty s. unfold Explorer.choose, Explorer.bind, Explorer.get_available_drives.
  simpl. destruct (Explorer.available_drives s) as [|d [|d' rest]] eqn:Havail.
  - apply Hempty.
  - simpl. exists d. split; [|done]. rewrite Havail. by left.
  - apply settles_select_drive.
Qed.

Lemma settles_get_user_drives (G : Graph) (stdin : Explorer.keyboard)
    (user_id user_name : string) :
  settles (fun b : bool => b) (Explorer.get_user_drives G stdin user_id user_name).
Proof.
  unfold Explorer.get_user_drives.
  apply settles_then; [apply settles_set_available|]. intros _.
  apply settles_then.
  { apply settles_try; [|by apply settles_ret].
    apply settles_then; [apply settles_http|]. intros r.
    destruct (fst r =? 200); [|by apply settles_ret].
    apply settles_then; [apply settles_json|]. intros d.
    apply settles_then; [apply settles_get_available|]. intros avail.
    apply settles_set_available. }
  intros _. apply settles_then.
  { apply settles_try; [|by apply settles_ret].
    apply settles_then; [apply settles_http|]. intros r.
    destruct (fst r =? 200); [|by apply settles_ret].
    apply settles_then; [apply settles_json|]. intros data.
    apply settles_then; [apply settles_get_available|]. intros avail.
    apply settles_set_available. }
  intros _. apply settles_choose. by apply settles_ret.
Qed.

Lemma settles_busqueda_normal (G : Graph) (stdin : Explorer.keyboard) (email : string) :
  settles found_drive (Explorer.busqueda_normal G stdin email).
Proof.
  unfold Explorer.busqueda_normal.
  apply settles_then; [apply settles_http|]. intros r.
  destruct (fst r =? 200); [|by apply settles_ret].
  apply settles_then; [apply settles_json|]. intros data.
  destruct (default [] (value data)) as [|u rest]; [by apply settles_ret|].
  destruct (u_id u) as [user_id|]; [|apply settles_throw].
  apply (settles_bind (fun b : bool => b)); [apply settles_get_user_drives|].
  intros [|]; [by eexists|by apply settles_ret].
Qed.

Lemma settles_busqueda_global (G : Graph) (stdin : Explorer.keyboard) (email : string) :
  settles (fun b : bool => b) (Explorer.busqueda_global G stdin email).
Proof.
  unfold Explorer.busqueda_global.
  apply settles_then; [apply settles_search_all|]. intros drives.
  destruct drives as [|d drives]; [by apply settles_ret|].
  apply settles_then; [apply settles_set_available|]. intros _.
  apply settles_choose, settles_select_drive.
Qed.

Lemma settles_get_drives_from_url (G : Graph) (stdin : Explorer.keyboard)
    (onedrive_url : string) :
  settles (fun b : bool => b) (Explorer.get_drives_from_url G stdin onedrive_url).
Proof.
  unfold Explorer.get_drives_from_url.
  apply settles_try; [|by apply settles_ret].
  destruct (email_of_url onedrive_url) as [email|]; [|by apply settles_ret].
  apply (settles_bind found_drive); [apply settles_busqueda_normal|].
  intros [[|]|]; simpl.
  - by eexists.
  - by apply settles_ret.
  - apply settles_busqueda_global.
Qed.

Lemma resolved_drive_unfolded (G : Graph) (stdin : Explorer.keyboard)
    (onedrive_url : string) (s : Explorer.explorer) :
  exists b s',
    Explorer.get_drives_from_url G stdin onedrive_url s = (Explorer.Returns b, s')
    /\ if b
       then exists d, d ∈ Explorer.available_drives s'
                      /\ Explorer.drive_id s' = Explorer.e_id d
       else Explorer.drive_id s' = Explorer.drive_id s.
Proof.
  pose proof (settles_get_drives_from_url G stdin onedrive_url s) as Hsettles.
  destruct (get_drives_from_url_returns G stdin onedrive_url s) as [b Hb].
  destruct (Explorer.get_drives_from_url G stdin onedrive_url s) as [o s'].
  simpl in Hb. subst o. by exists b, s'.
Qed.

(** X14.  Whatever the service answers and whatever is typed, when
    [get_drives_from_url] returns [True] the drive it has selected is one
    of the drives it has put in [self.available_drives]; when it returns
    [False] the drive is the one from before.  It never raises. *)
Theorem resolved_drive_is_listed (G : Graph) (stdin : Explorer.keyboard)
    (onedrive_url : string) (s : Explorer.explorer) :
  exists b s',
    Explorer.get_drives_from_url G stdin onedrive_url s = (Explorer.Returns b, s')
    /\ if b
       then exists d, d ∈ Explorer.available_drives s'
                      /\ Explorer.drive_id s' = Explorer.e_id d
       else Explorer.drive_id s' = Explorer.drive_id s.
Proof. apply resolved_drive_unfolded. Qed.

(** ** Starting the explorer *)

Lemma startswith_truthy (p s : string) :
  p <> EmptyString -> Py.startswith p s = true -> Py.truthy s = true.
Proof. by destruct p, s. Qed.

(** X15.  The prompt of [run] is reached only after a successful
    authentication and with a drive selected: the cleaned argument itself
    when it starts with [b!] (and then no request but the token request
    has been made), one of [self.available_drives] otherwise. *)
Theorem prompt_has_drive (G : Graph) (stdin : Explorer.keyboard) (tenant_id : string)
    (arg_drive_id arg_url : option string) (s : Explorer.explorer) :
  Explorer.main G stdin tenant_id arg_drive_id arg_url = Explorer.Prompt s ->
  fst (Explorer.authenticate G tenant_id) = true
  /\ Py.truthy_opt (Explorer.drive_id s) = true
  /\ ((exists input,
         Py.or_else arg_drive_id arg_url = Some input
         /\ Py.startswith "b!" (Explorer.clean_input input) = true
         /\ Explorer.drive_id s = Some (Explorer.clean_input input)
         /\ Explorer.requests s = [Explorer.token_url tenant_id])
      \/ (exists d, d ∈ Explorer.available_drives s
                    /\ Explorer.drive_id s = Explorer.e_id d)).
Proof.
  unfold Explorer.main, Explorer.start.
  destruct (Py.truthy_opt (Py.or_else arg_drive_id arg_url)) eqn:Hinput; [|done].
  destruct (fst (Explorer.authenticate G tenant_id)); [|done].
  destruct (Py.or_else arg_drive_id arg_url) as [input|]; [|done].
  cbn -[Py.startswith Explorer.clean_input Explorer.get_drives_from_url] in Hinput |- *.
  rewrite Hinput.
  destruct (Py.startswith "b!" (Explorer.clean_input input)) eqn:Hprefix.
  - pose proof (startswith_truthy "b!" _ ltac:(done) Hprefix) as Hclean.
    cbn -[Py.startswith Explorer.clean_input]. rewrite Hclean.
    intros [= <-]. split; [done|]. split; [done|].
    left. by exists input.
  - destruct (resolved_drive_unfolded G stdin (Explorer.clean_input input)
                (Explorer.sent Explorer.fresh (Explorer.token_url tenant_id)))
      as (b & s' & -> & Hb).
    destruct b; [|done].
    destruct (Py.truthy_opt (Explorer.drive_id s')) eqn:Hdrive; [|done].
    intros [= <-]. split; [done|]. split; [done|]. by right.
Qed.

Lemma prompt_has_drive_witness :
  fst (Explorer.authenticate Samples.browsing "t") = true
  /\ Py.truthy_opt (Some "b!x") = true
  /\ ((exists input,
         Py.or_else (Some " 'b!x' ") None = Some input
         /\ Py.startswith "b!" (Explorer.clean_input input) = true
         /\ Some "b!x" = Some (Explorer.clean_input input)
         /\ [Explorer.token_url "t"] = [Explorer.token_url "t"])
      \/ (exists d, d ∈ @nil Explorer.entry /\ Some "b!x" = Explorer.e_id d)).
Proof.
  exact (prompt_has_drive Samples.browsing Explorer.EOFError "t" (Some " 'b!x' ") None
           {| Explorer.drive_id := Some "b!x";
              Explorer.available_drives := [];
              Explorer.requests := [Explorer.token_url "t"] |} eq_refl).
Defined.

(** X16.  The script ends with status 1 before any request when neither
    [--drive-id] nor [--url] holds a value, and after the token request
    alone when that request is not answered with status 200 and a body
    that holds [access_token]. *)
Theorem launch_refused (G : Graph) (stdin : Explorer.keyboard) (tenant_id : string)
    (arg_drive_id arg_url : option string) :
  (Py.truthy_opt arg_drive_id = false ->
   Py.truthy_opt arg_url = false ->
   Explorer.main G stdin tenant_id arg_drive_id arg_url = Explorer.Exits 1 Explorer.fresh)
  /\
  (Py.truthy_opt arg_drive_id || Py.truthy_opt arg_url = true ->
   ~ (exists token_data tok,
        post_token G (Explorer.token_url tenant_id) = Status 200 (Some token_data)
        /\ tk_access_token token_data = Some tok) ->
   Explorer.main G stdin tenant_id arg_drive_id arg_url
   = Explorer.Exits 1 (Explorer.sent Explorer.fresh (Explorer.token_url tenant_id))).
Proof.
  unfold Explorer.main, Py.or_else. split.
  - intros -> ->. done.
  - intros Hinput Hrefused.
    assert (Hgiven : Py.truthy_opt (if Py.truthy_opt arg_drive_id then arg_drive_id
                                    else arg_url) = true).
    { destruct (Py.truthy_opt arg_drive_id) eqn:Hfirst; [done|]. by simpl in Hinput. }
    rewrite Hgiven. simpl. unfold Explorer.start, Explorer.authenticate.
    destruct (post_token G (Explorer.token_url tenant_id)) as [|code [token_data|]] eqn:Hpost;
      try done.
    + destruct (code =? 200) eqn:Hcode; [|done].
      apply Z.eqb_eq in Hcode as ->.
      destruct (tk_access_token token_data) as [tok|] eqn:Htok; [|done].
      destruct Hrefused. by exists token_data, tok.
    + by destruct (code =? 200).
Qed.

Lemma launch_refused_witness :
  Explorer.main Samples.silent Explorer.EOFError "t" (Some "") None
  = Explorer.Exits 1 Explorer.fresh
  /\ Explorer.main Samples.silent Explorer.EOFError "t" None (Some "b!x")
     = Explorer.Exits 1 (Explorer.sent Explorer.fresh (Explorer.token_url "t")).
Proof.
  split.
  - exact (proj1 (launch_refused Samples.silent Explorer.EOFError "t" (Some "") None)
             eq_refl eq_refl).
  - refine (proj2 (launch_refused Samples.silent Explorer.EOFError "t" None (Some "b!x"))
              eq_refl _).
    intros (token_data & tok & Hpost & _). discriminate Hpost.
Defined.
